(** * Molecule-to-graph conversion of the PyTorch Geometric tutorial

    A shallow embedding of the code cells of
    [pytorch_geometric_introduction.ipynb]: the custom dataset class
    [MyDataset] (constructor, [download], [process]) and the train/test
    split of the training section.

    The libraries the notebook calls are modelled at their interface:
    - RDKit molecules are records of atoms and bonds carrying exactly the
      accessors the notebook reads ([GetAtomicNum], [GetBeginAtomIdx], ...);
      the SMILES parser itself is a parameter [MolFromSmiles];
    - [torch] tensors of dtype [long] are lists of [Z] (one-dimensional) and
      lists of rows (two-dimensional), with 64-bit wrap-around where the
      code computes on them;
    - the file system the dataset class reads and writes is a finite map
      from paths to file contents, threaded through a state and exception
      monad;
    - Python floats are IEEE 754 doubles ([spec_float] at precision 53).

    Definitions come first, in the order of the notebook; the lemmas and
    the properties of the specification follow. *)

From Stdlib Require Import ZArith QArith Lia SpecFloat.
From stdpp Require Import base option list list_numbers sorting strings gmap.

Local Open Scope Z_scope.

(** ** Tensors *)

Module Torch.

(** A one-dimensional and a two-dimensional (row-major) [long] tensor. *)
Abbreviation tensor1 := (list Z).
Abbreviation tensor2 := (list (list Z)).

(** [t.size(0)] *)
Definition size0 (t : tensor2) : nat := length t.

(** [t.numel()]: the number of entries of a two-dimensional tensor. *)
Definition numel (t : tensor2) : nat := sum_list (length <$> t).

(** [t] has [r] rows of [c] entries each. *)
Definition has_shape (t : tensor2) (r c : nat) : Prop :=
  length t = r ∧ Forall (λ row, length row = c) t.

(** [torch.empty([r, c], dtype=torch.long)]: a tensor of the requested
    shape over uninitialised memory; [uninit i j] is whatever the memory
    holds at row [i], column [j]. *)
Definition empty (uninit : nat → nat → Z) (r c : nat) : tensor2 :=
  (λ i, uninit i <$> seq 0 c) <$> seq 0 r.

(** [x[i][k] = v] *)
Definition setitem (x : tensor2) (i k : nat) (v : Z) : tensor2 :=
  alter (λ row, <[k:=v]> row) i x.

(** Arithmetic on [long] tensors wraps around in 64-bit two's complement. *)
Definition wrap64 (z : Z) : Z := (z + 2 ^ 63) mod 2 ^ 64 - 2 ^ 63.

(** [a * n + b], elementwise, for 1-d tensors [a], [b] and a scalar [n]. *)
Definition mul_add (a : tensor1) (n : Z) (b : tensor1) : tensor1 :=
  zip_with (λ s d, wrap64 (wrap64 (s * n) + d)) a b.

(** The layout change [torch.tensor(pairs).t().to(torch.long).view(2, -1)]
    of a list of index pairs, and [m.t()] of an [[n, 2]] tensor: the
    result has two rows, the first and the second components.  An empty
    list gives the [[2, 0]] tensor. *)
Definition t (pairs : tensor2) : tensor2 :=
  [ (λ p, p !!! 0%nat) <$> pairs ; (λ p, p !!! 1%nat) <$> pairs ].

(** [torch.tensor(l, dtype=torch.long).unsqueeze(1)] *)
Definition unsqueeze1 (l : tensor1) : tensor2 := (λ a, [a]) <$> l.

(** Indexing with an index tensor, [l[perm]]. *)
Definition gather {A} `{Inhabited A} (l : list A) (perm : list nat) : list A :=
  (λ i, l !!! i) <$> perm.

(** Column selection [m[:, perm]]. *)
Definition gather_cols (m : tensor2) (perm : list nat) : tensor2 :=
  (λ row, gather row perm) <$> m.

(** The order in which a stable sort compares keys tagged with their
    position. *)
Definition key_le (a b : Z * nat) : Prop :=
  a.1 < b.1 ∨ (a.1 = b.1 ∧ (a.2 ≤ b.2)%nat).

#[global] Instance key_le_dec a b : Decision (key_le a b).
Proof. unfold key_le. apply _. Defined.

(** [keys.argsort()]: the positions of [keys] in ascending order of
    their key (equal keys in their original order). *)
Definition argsort (keys : tensor1) : list nat :=
  snd <$> merge_sort key_le (zip keys (seq 0 (length keys))).

(** What any implementation of [argsort], stable or not, guarantees:
    [perm] lists every position once and reads the keys in
    non-decreasing order. *)
Definition is_argsort (keys : tensor1) (perm : list nat) : Prop :=
  perm ≡ₚ seq 0 (length keys) ∧ Sorted Z.le (gather keys perm).

(** [m.nonzero()]: the index pairs of the non-zero entries, in row-major
    order, as an [[n, 2]] tensor. *)
Definition nonzero (m : tensor2) : tensor2 :=
  mjoin (imap (λ i row,
    mjoin (imap (λ j v,
      if decide (v = 0) then [] else [[Z.of_nat i; Z.of_nat j]]) row)) m).

(** [m[i, j]] *)
Definition item (m : tensor2) (i j : nat) : Z := (m !!! i) !!! j.

(** [torch_geometric.utils.dense_to_sparse(adj)] of a square matrix: the
    edge index and the values at its entries. *)
Definition dense_to_sparse (adj : tensor2) : tensor2 * tensor1 :=
  let edge_index := t (nonzero adj) in
  let edge_attr :=
    zip_with (λ i j, item adj (Z.to_nat i) (Z.to_nat j))
      (edge_index !!! 0%nat) (edge_index !!! 1%nat) in
  (edge_index, edge_attr).

End Torch.

(** ** Exceptions *)

Inductive exception : Type :=
  | AttributeError      (* an attribute looked up on [None] *)
  | IndexError          (* an index out of range *)
  | OverflowError       (* a number too large for its target type *)
  | ValueError          (* a value outside the domain of an operation *)
  | FileNotFoundError (path : string)
  | ParserError (path : string)      (* [read_csv] on a file that is no table *)
  | UnpicklingError (path : string)  (* [torch.load] on a file [torch.save] did not write *).

Inductive result (A : Type) : Type :=
  | Ok (a : A)
  | Raise (e : exception).
Arguments Ok {A} a.
Arguments Raise {A} e.

#[global] Instance result_ret : MRet result := λ A a, Ok a.
#[global] Instance result_bind : MBind result := λ A B f m,
  match m with Ok a => f a | Raise e => Raise e end.

(** [for a in l: s = body(s, a)], left as soon as a body raises. *)
Fixpoint for_each {A S} (body : S → A → result S) (l : list A) (s : S) : result S :=
  match l with
  | [] => Ok s
  | a :: l => s' ← body s a; for_each body l s'
  end.

(** [enumerate(l)] *)
Definition enumerate {A} (l : list A) : list (nat * A) := zip (seq 0 (length l)) l.

(** ** Python numbers *)

Module Python.

(** Python's [float] is the IEEE 754 binary64 format. *)
Definition prec : Z := 53.
Definition emax : Z := 1024.

(** The literal [.8]: the double nearest to 8/10,
    7205759403792794 * 2^-53. *)
Definition float_08 : spec_float := S754_finite false 7205759403792794 (-53).

(** [float(n)] of an [int], as the product of an [int] and a [float]
    converts its left operand: correctly rounded, and an error when [n]
    is too large for a double. *)
Definition float_of_int (n : Z) : result spec_float :=
  match binary_normalize prec emax n 0 false with
  | S754_infinity _ => Raise OverflowError
  | f => Ok f
  end.

(** [a * b] on floats. *)
Definition float_mul (a b : spec_float) : spec_float := SFmul prec emax a b.

(** The number a finite double denotes. *)
Definition Q_of_float (f : spec_float) : Q :=
  match f with
  | S754_finite s m e =>
      match e with
      | Z.neg p => cond_Zopp s (Z.pos m) # 2 ^ p
      | _ => inject_Z (cond_Zopp s (Z.pos m) * 2 ^ e)
      end
  | _ => 0
  end.

(** [int(d)] of a finite double [d], given as the number it denotes:
    truncation towards zero. *)
Definition int_of_Q (d : Q) : Z := Z.quot (Qnum d) (Z.pos (Qden d)).

(** [int(f)]: truncation towards zero; infinities and NaN raise. *)
Definition int_of_float (f : spec_float) : result Z :=
  match f with
  | S754_zero _ => Ok 0
  | S754_finite s m e =>
      Ok (cond_Zopp s
            (match e with
             | Z.neg p => Z.pos m / 2 ^ Z.pos p
             | _ => Z.pos m * 2 ^ e
             end))
  | S754_infinity _ => Raise OverflowError
  | S754_nan => Raise ValueError
  end.

(** The slices [l[:k]] and [l[k:]]; a negative [k] counts from the end. *)
Definition slice_index {A} (l : list A) (k : Z) : nat :=
  if decide (k < 0) then Z.to_nat (Z.of_nat (length l) + k) else Z.to_nat k.

Definition slice_to {A} (l : list A) (k : Z) : list A := take (slice_index l k) l.
Definition slice_from {A} (l : list A) (k : Z) : list A := drop (slice_index l k) l.

End Python.

(** ** Molecules *)

Module Chem.

(** An atom, with the accessors [process] reads.  [GetHybridization] is
    the integer value of the toolkit's hybridization enumeration. *)
Module Atom.
Record t : Type := {
  GetAtomicNum : Z;
  GetDegree : Z;
  GetFormalCharge : Z;
  GetHybridization : Z;
  GetIsAromatic : bool
}.
End Atom.
Abbreviation Atom := Atom.t.

(** A bond.  [GetBondTypeAsDouble] is the finite double the toolkit
    returns, held as the number it denotes (1, 2, 3 for single, double and
    triple bonds, 3/2 for aromatic ones); [process] only casts it to
    [int]. *)
Module Bond.
Record t : Type := {
  GetBeginAtomIdx : nat;
  GetEndAtomIdx : nat;
  GetIsAromatic : bool;
  GetBondTypeAsDouble : Q
}.
End Bond.
Abbreviation Bond := Bond.t.

Record Mol : Type := {
  GetAtoms : list Atom;
  GetBonds : list Bond
}.

Definition GetNumAtoms (mol : Mol) : nat := length (GetAtoms mol).
Definition GetNumBonds (mol : Mol) : nat := length (GetBonds mol).

(** Two atoms are bonded when some bond joins them, in either
    orientation. *)
Definition joins (i j : nat) (bond : Bond) : bool :=
  bool_decide (Bond.GetBeginAtomIdx bond = i ∧ Bond.GetEndAtomIdx bond = j)
  || bool_decide (Bond.GetBeginAtomIdx bond = j ∧ Bond.GetEndAtomIdx bond = i).

Definition bonded (mol : Mol) (i j : nat) : bool :=
  existsb (joins i j) (GetBonds mol).

(** [Chem.rdmolops.GetAdjacencyMatrix(mol)]: the symmetric 0/1 matrix
    with a 1 exactly at the pairs of bonded atoms. *)
Definition GetAdjacencyMatrix (mol : Mol) : Torch.tensor2 :=
  (λ i, (λ j, if bonded mol i j then 1 else 0) <$> seq 0 (GetNumAtoms mol))
    <$> seq 0 (GetNumAtoms mol).

(** The unordered pair of atoms a bond joins. *)
Definition ends (bond : Bond) : nat * nat :=
  (Bond.GetBeginAtomIdx bond `min` Bond.GetEndAtomIdx bond,
   Bond.GetBeginAtomIdx bond `max` Bond.GetEndAtomIdx bond)%nat.

(** The invariants of a molecule held by the toolkit: a bond joins two
    different atoms of the molecule, no two bonds join the same pair, and
    atoms are addressed by 32-bit indices (taken as signed here, which
    keeps the sort keys of the edges within 64 bits). *)
Definition wf_mol (mol : Mol) : Prop :=
  Forall (λ bond,
    (Bond.GetBeginAtomIdx bond < GetNumAtoms mol)%nat
    ∧ (Bond.GetEndAtomIdx bond < GetNumAtoms mol)%nat
    ∧ Bond.GetBeginAtomIdx bond ≠ Bond.GetEndAtomIdx bond) (GetBonds mol)
  ∧ NoDup (ends <$> GetBonds mol)
  ∧ Z.of_nat (GetNumAtoms mol) < 2 ^ 31.

#[global] Instance wf_mol_dec mol : Decision (wf_mol mol).
Proof. unfold wf_mol. apply _. Defined.

End Chem.

(** ** Tables, graph records and the file system *)

(** One row of the source table, with its [smiles] and [labels] columns. *)
Module Row.
Record t : Type := { smiles : string; labels : Z }.
End Row.
Abbreviation Row := Row.t.

(** A graph record, [torch_geometric.data.Data]; [edge_attr] is set in
    edge-attribute mode only. *)
Module Data.
Record t : Type := {
  x : Torch.tensor2;
  edge_index : Torch.tensor2;
  y : Torch.tensor2;
  smiles : string;
  edge_attr : option Torch.tensor2
}.
End Data.
Abbreviation Data := Data.t.

(** What a file holds: a table ([data.csv]) or a collection of graph
    records written by [torch.save]. *)
Inductive file : Type :=
  | CsvFile (df : list Row)
  | PtFile (collection : list Data).

(** A computation that reads and writes files and may raise.  Writes made
    before an exception stay. *)
Definition M (A : Type) : Type := gmap string file → result A * gmap string file.

#[global] Instance M_ret : MRet M := λ A a fs, (Ok a, fs).
#[global] Instance M_bind : MBind M := λ A B f m fs,
  match m fs with
  | (Ok a, fs') => f a fs'
  | (Raise e, fs') => (Raise e, fs')
  end.

Definition lift {A} (r : result A) : M A := λ fs, (r, fs).

(** [os.path.exists(path)] *)
Definition files_exist (path : string) : M bool :=
  λ fs, (Ok (bool_decide (is_Some (fs !! path))), fs).

(** [pd.read_csv(path)] *)
Definition read_csv (path : string) : M (list Row) := λ fs,
  match fs !! path with
  | Some (CsvFile df) => (Ok df, fs)
  | Some (PtFile _) => (Raise (ParserError path), fs)
  | None => (Raise (FileNotFoundError path), fs)
  end.

(** [shutil.copy(src, dst)] *)
Definition shutil_copy (src dst : string) : M unit := λ fs,
  match fs !! src with
  | Some f => (Ok (), <[dst:=f]> fs)
  | None => (Raise (FileNotFoundError src), fs)
  end.

(** [torch.save(obj, path)] *)
Definition torch_save (collection : list Data) (path : string) : M unit :=
  λ fs, (Ok (), <[path:=PtFile collection]> fs).

(** [torch.load(path)] *)
Definition torch_load (path : string) : M (list Data) := λ fs,
  match fs !! path with
  | Some (PtFile collection) => (Ok collection, fs)
  | Some (CsvFile _) => (Raise (UnpicklingError path), fs)
  | None => (Raise (FileNotFoundError path), fs)
  end.

(** ** [MyDataset] *)

Module MyDataset.
Import Torch Chem Python.

(** The five features [process] writes for an atom. *)
Definition atom_features (atom : Atom) : list Z :=
  [ Atom.GetAtomicNum atom; Atom.GetDegree atom; Atom.GetFormalCharge atom;
    Atom.GetHybridization atom; Z.b2z (Atom.GetIsAromatic atom) ].

(** The body of the loop over the atoms. *)
Definition write_atom (x : tensor2) (ia : nat * Atom) : tensor2 :=
  let '(i, atom) := ia in
  let x := setitem x i 0 (Atom.GetAtomicNum atom) in
  let x := setitem x i 1 (Atom.GetDegree atom) in
  let x := setitem x i 2 (Atom.GetFormalCharge atom) in
  let x := setitem x i 3 (Atom.GetHybridization atom) in
  let x := setitem x i 4 (Z.b2z (Atom.GetIsAromatic atom)) in
  x.

(** The node-feature table of a molecule. *)
Definition node_features (uninit : nat → nat → Z) (mol : Mol) : tensor2 :=
  let x := empty uninit (GetNumAtoms mol) 5 in
  foldl write_atom x (enumerate (GetAtoms mol)).

(** The edge feature of a bond: 4 for an aromatic bond (whose bond type
    as a double is 1.5), else the bond type cast to [int]. *)
Definition bond_attr (bond : Bond) : Z :=
  if Bond.GetIsAromatic bond then 4 else int_of_Q (Bond.GetBondTypeAsDouble bond).

(** The body of the loop over the bonds. *)
Definition write_bond (acc : list (list Z) * list Z) (bond : Bond)
  : list (list Z) * list Z :=
  let '(edge_indices, edge_attrs) := acc in
  let atom1 := Z.of_nat (Bond.GetBeginAtomIdx bond) in
  let atom2 := Z.of_nat (Bond.GetEndAtomIdx bond) in
  let attr := bond_attr bond in
  (edge_indices ++ [[atom1; atom2]; [atom2; atom1]], edge_attrs ++ [attr; attr]).

(** The sort of the edges, under its guard. *)
Definition sort_edges (n : nat) (edge_index edge_attr : tensor2) : tensor2 * tensor2 :=
  if bool_decide (0 < numel edge_index)%nat then
    let perm :=
      argsort (mul_add (edge_index !!! 0%nat) (Z.of_nat n) (edge_index !!! 1%nat)) in
    (gather_cols edge_index perm, gather edge_attr perm)
  else (edge_index, edge_attr).

(** The branch [if self.create_edge_attr]. *)
Definition edges_with_attr (x : tensor2) (mol : Mol) : tensor2 * tensor2 :=
  let '(edge_indices, edge_attrs) := foldl write_bond ([], []) (GetBonds mol) in
  let edge_index := t edge_indices in
  let edge_attr := unsqueeze1 edge_attrs in
  sort_edges (size0 x) edge_index edge_attr.

(** The [else] branch. *)
Definition edges_from_adjacency (mol : Mol) : tensor2 :=
  let adj := GetAdjacencyMatrix mol in
  (dense_to_sparse adj).1.

(** What one pass of the loop over the rows builds from the parsed
    molecule. *)
Definition graph_of_mol (uninit : nat → nat → Z) (create_edge_attr : bool)
    (mol : Mol) (smiles : string) (label : Z) : Data :=
  let x := node_features uninit mol in
  let '(edge_index, edge_attr) :=
    if create_edge_attr then
      let '(edge_index, edge_attr) := edges_with_attr x mol in
      (edge_index, Some edge_attr)
    else (edges_from_adjacency mol, None) in
  let label := [[label]] in
  {| Data.x := x; Data.edge_index := edge_index; Data.y := label;
     Data.smiles := smiles; Data.edge_attr := edge_attr |}.

(** *** Vocabulary of the properties *)

(** The composite sort key of the edge from [s] to [d] in a graph of [n]
    nodes, and the keys along an edge index. *)
Definition sort_key (n : nat) (s d : Z) : Z := s * Z.of_nat n + d.

Definition sort_keys (n : nat) (edge_index : tensor2) : list Z :=
  zip_with (sort_key n) (edge_index !!! 0%nat) (edge_index !!! 1%nat).

(** The directed entries of an edge index, each with its row of edge
    features. *)
Definition entries (edge_index edge_attr : tensor2) : list (Z * Z * list Z) :=
  zip (zip (edge_index !!! 0%nat) (edge_index !!! 1%nat)) edge_attr.

(** The two entries a bond stands for. *)
Definition bond_entries (bond : Bond) : list (Z * Z * list Z) :=
  let atom1 := Z.of_nat (Bond.GetBeginAtomIdx bond) in
  let atom2 := Z.of_nat (Bond.GetEndAtomIdx bond) in
  [ (atom1, atom2, [bond_attr bond]); (atom2, atom1, [bond_attr bond]) ].

(** Edges as triples of source, destination and feature: the two triples
    of a bond, the triples of a molecule in the order of its bonds, and
    the two tensors that hold a list of triples. *)
Definition bond_triples (bond : Bond) : list (Z * Z * Z) :=
  let atom1 := Z.of_nat (Bond.GetBeginAtomIdx bond) in
  let atom2 := Z.of_nat (Bond.GetEndAtomIdx bond) in
  [ (atom1, atom2, bond_attr bond); (atom2, atom1, bond_attr bond) ].

Definition triples (mol : Mol) : list (Z * Z * Z) := GetBonds mol ≫= bond_triples.

Definition pair_of (e : Z * Z * Z) : list Z := [e.1.1; e.1.2].

Definition cols (es : list (Z * Z * Z)) : tensor2 :=
  [ (λ e, e.1.1) <$> es; (λ e, e.1.2) <$> es ].

Definition feats (es : list (Z * Z * Z)) : tensor2 := (λ e, [e.2]) <$> es.

(** The key of a triple as the tensor arithmetic computes it. *)
Definition wkey (n : nat) (e : Z * Z * Z) : Z :=
  wrap64 (wrap64 (e.1.1 * Z.of_nat n) + e.1.2).

(** The sort key of an index pair [[s; d]]. *)
Definition pair_key (n : nat) (p : list Z) : Z :=
  sort_key n (p !!! 0%nat) (p !!! 1%nat).

Definition raw_dir (root : string) : string := root +:+ "/raw".
Definition processed_dir (root : string) : string := root +:+ "/processed".
Definition raw_paths0 (root : string) : string := raw_dir root +:+ "/data.csv".
Definition processed_paths0 (root : string) : string :=
  processed_dir root +:+ "/processed_data.pt".

(** [self.collate(data_list)]: the records in order, ready to be saved;
    it reads the first record, and every slot has to hold one. *)
Definition collate (data_list : list (option Data)) : result (list Data) :=
  match data_list with
  | [] => Raise IndexError
  | _ => from_option Ok (Raise AttributeError) (mapM id data_list)
  end.

Section process.
(** [Chem.MolFromSmiles]: [None] for a string it cannot parse. *)
Variable MolFromSmiles : string → option Mol.
Variable uninit : nat → nat → Z.
Variable create_edge_attr : bool.

(** The body of the loop over the rows: [mol.GetNumAtoms()] raises
    when the parser returned [None]. *)
Definition process_row (data_list : list (option Data)) (ir : nat * Row)
  : result (list (option Data)) :=
  let '(idx, row) := ir in
  let smiles := Row.smiles row in
  let label := Row.labels row in
  match MolFromSmiles smiles with
  | None => Raise AttributeError
  | Some mol =>
      Ok (<[idx := Some (graph_of_mol uninit create_edge_attr mol smiles label)]>
           data_list)
  end.

(** The record a row stands for, when its structure string parses. *)
Definition record_of (row : Row) : option Data :=
  mol ← MolFromSmiles (Row.smiles row);
  Some (graph_of_mol uninit create_edge_attr mol (Row.smiles row) (Row.labels row)).

Definition process (root : string) : M unit :=
  df ← read_csv (raw_paths0 root);
  let data_list := replicate (length df) None in
  data_list ← lift (for_each process_row (enumerate df) data_list);
  data_slices ← lift (collate data_list);
  torch_save data_slices (processed_paths0 root).

Definition download (root : string) : M unit :=
  shutil_copy "data.csv" (raw_dir root +:+ "/data.csv").

(** The base class runs [download] when the raw file is not found and
    [process] when the processed file is not found. *)
Definition _download (root : string) : M unit :=
  found ← files_exist (raw_paths0 root);
  if found : bool then mret () else download root.

Definition _process (root : string) : M unit :=
  found ← files_exist (processed_paths0 root);
  if found : bool then mret () else process root.

(** [MyDataset(root, create_edge_attr)] *)
Definition __init__ (root : string) : M (list Data) :=
  _download root;;
  _process root;;
  torch_load (processed_paths0 root).

End process.
End MyDataset.

(** ** The split into a training and a test set *)

(** [int(len * .8)] for the length [len] of the dataset. *)
Definition split_point (len : Z) : result Z :=
  f ← Python.float_of_int len;
  Python.int_of_float (Python.float_mul f Python.float_08).

(** [train_set = dataset[:int(len(dataset)*.8)]] and
    [test_set = dataset[int(len(dataset)*.8):]] *)
Definition train_test_split {A} (dataset : list A) : result (list A * list A) :=
  k ← split_point (Z.of_nat (length dataset));
  let train_set := Python.slice_to dataset k in
  k' ← split_point (Z.of_nat (length dataset));
  let test_set := Python.slice_from dataset k' in
  Ok (train_set, test_set).

(** ** Example molecules, tables and file systems *)

Module Examples.
Import Chem MyDataset.

Definition atom (num degree : Z) : Atom :=
  {| Atom.GetAtomicNum := num; Atom.GetDegree := degree;
     Atom.GetFormalCharge := 0; Atom.GetHybridization := 4;
     Atom.GetIsAromatic := false |}.

Definition single (atom1 atom2 : nat) : Bond :=
  {| Bond.GetBeginAtomIdx := atom1; Bond.GetEndAtomIdx := atom2;
     Bond.GetIsAromatic := false; Bond.GetBondTypeAsDouble := 1%Q |}.

Definition aromatic (atom1 atom2 : nat) : Bond :=
  {| Bond.GetBeginAtomIdx := atom1; Bond.GetEndAtomIdx := atom2;
     Bond.GetIsAromatic := true; Bond.GetBondTypeAsDouble := (3 # 2)%Q |}.

(** Ethanol, [CCO], and water, [O], as the toolkit parses them: hydrogens
    are implicit. *)
Definition ethanol : Mol :=
  {| GetAtoms := [atom 6 1; atom 6 2; atom 8 1];
     GetBonds := [single 0 1; single 1 2] |}.

Definition water : Mol := {| GetAtoms := [atom 8 0]; GetBonds := [] |}.

(** A parser that knows these two molecules only. *)
Definition parse (smiles : string) : option Mol :=
  if decide (smiles = "CCO") then Some ethanol
  else if decide (smiles = "O") then Some water
  else None.

Definition zeros (i j : nat) : Z := 0.

(** The table of the two molecules, and one with a string that does not
    parse in second place. *)
Definition table : list Row :=
  [ {| Row.smiles := "CCO"; Row.labels := 1 |}; {| Row.smiles := "O"; Row.labels := 0 |} ].

Definition bad_table : list Row :=
  [ {| Row.smiles := "CCO"; Row.labels := 1 |}; {| Row.smiles := "C("; Row.labels := 0 |};
    {| Row.smiles := "O"; Row.labels := 0 |} ].

(** A collection as a run over the table of water alone caches it. *)
Definition cached : list Data := [graph_of_mol zeros true water "O" 0].

(** File systems: before the first run, with a table that does not
    convert in the raw directory, with nothing but a cache file, and with
    a cache file next to a table it was not made from. *)
Definition fresh : gmap string file := {[ "data.csv" := CsvFile table ]}.

Definition bad_raw : gmap string file :=
  {[ "tox21/raw/data.csv" := CsvFile bad_table ]}.

Definition cache_only : gmap string file :=
  {[ "tox21/processed/processed_data.pt" := PtFile cached ]}.

Definition cache_and_table : gmap string file :=
  <[ "data.csv" := CsvFile bad_table ]> cache_only.

End Examples.

(** ** Batches *)

Module Loader.

(** [len(loader)] for a loader that keeps the last, smaller batch. *)
Definition num_batches (n batch_size : nat) : nat :=
  ((n + batch_size - 1) / batch_size)%nat.

(** [loader.DataLoader(dataset, batch_size=...)] with its defaults: no
    shuffling, the last smaller batch kept.  Batch [i] holds the records
    at the positions from [i * batch_size] up to [(i + 1) * batch_size];
    the records of a batch are not merged into one graph here. *)
Definition DataLoader {A} (dataset : list A) (batch_size : nat) : list (list A) :=
  (λ i, take batch_size (drop (i * batch_size) dataset))
    <$> seq 0 (num_batches (length dataset) batch_size).

(** The split and the two loaders of the training section. *)
Definition loaders {A} (dataset : list A)
  : result (list (list A) * list (list A)) :=
  '(train_set, test_set) ← train_test_split dataset;
  let train_loader := DataLoader train_set 32 in
  let test_loader := DataLoader test_set 32 in
  Ok (train_loader, test_loader).

End Loader.

(** ** Directed pairs *)

Module Graphs.

(** The directed pairs an edge index lists, column by column. *)
Definition edge_pairs (edge_index : Torch.tensor2) : list (Z * Z) :=
  zip (edge_index !!! 0%nat) (edge_index !!! 1%nat).

End Graphs.

(** ** More example molecules *)

Module Examples2.
Import Chem Examples.

(** Ethanol with its bonds listed in the other order and the second one
    from the oxygen to the carbon. *)
Definition ethanol_reordered : Mol :=
  {| GetAtoms := [atom 6 1; atom 6 2; atom 8 1];
     GetBonds := [single 2 1; single 0 1] |}.

(** A bond of order four that is not aromatic. *)
Definition quadruple (atom1 atom2 : nat) : Bond :=
  {| Bond.GetBeginAtomIdx := atom1; Bond.GetEndAtomIdx := atom2;
     Bond.GetIsAromatic := false; Bond.GetBondTypeAsDouble := 4%Q |}.

(** An empty table in the raw directory. *)
Definition empty_raw : gmap string file :=
  {[ "tox21/raw/data.csv" := CsvFile [] ]}.


End Examples2.
Module NodeFeatures.
Import Torch Chem MyDataset.

Lemma write_atom_row (x : tensor2) i atom row :
  x !! i = Some row → length row = 5%nat →
  write_atom x (i, atom) = <[i := atom_features atom]> x.
Proof.
  intros Hrow Hlen. unfold write_atom, setitem. cbv zeta.
  apply list_eq. intros j.
  destruct (decide (i = j)) as [<-|Hne].
  - rewrite !list_lookup_alter_eq, list_lookup_insert_eq by (by eapply lookup_lt_Some).
    rewrite Hrow. simpl. f_equal.
    do 5 (destruct row as [|? row]; [discriminate|]).
    destruct row; [reflexivity|discriminate].
  - by rewrite !list_lookup_alter_ne, list_lookup_insert_ne.
Qed.

Lemma fill_rows (l : list Atom) : ∀ k (x : tensor2),
  (∀ i, (k ≤ i < k + length l)%nat → ∃ row, x !! i = Some row ∧ length row = 5%nat) →
  foldl write_atom x (zip (seq k (length l)) l)
  = take k x ++ (atom_features <$> l) ++ drop (k + length l) x.
Proof.
  induction l as [|a l IH]; intros k x Hx; cbn [length seq zip_with foldl].
  - rewrite Nat.add_0_r. simpl. by rewrite take_drop.
  - destruct (Hx k) as (row & Hrow & Hlen); [simpl; lia|].
    rewrite (write_atom_row _ _ _ _ Hrow Hlen).
    rewrite IH.
    + rewrite (take_S_r _ _ (atom_features a)) by (apply list_lookup_insert_eq; by eapply lookup_lt_Some).
      rewrite take_insert_ge by lia.
      rewrite drop_insert_lt by lia.
      rewrite <- app_assoc.
      replace (k + S (length l))%nat with (S k + length l)%nat by lia. done.
    + intros i Hi. rewrite list_lookup_insert_ne by lia. apply Hx. simpl. lia.
Qed.

Lemma empty_lookup uninit r c i :
  (i < r)%nat → empty uninit r c !! i = Some (uninit i <$> seq 0 c).
Proof.
  intros Hi. unfold empty. rewrite list_lookup_fmap, lookup_seq_lt by done. done.
Qed.

Lemma node_features_rows uninit mol :
  node_features uninit mol = atom_features <$> GetAtoms mol.
Proof.
  unfold node_features, enumerate, GetNumAtoms.
  rewrite fill_rows.
  - simpl. rewrite drop_ge, app_nil_r; [done|].
    unfold empty. by rewrite length_fmap, length_seq.
  - intros i Hi. eexists. split; [apply empty_lookup; lia|].
    by rewrite length_fmap, length_seq.
Qed.
End NodeFeatures.

(** ** Indexing by a permutation and [argsort] *)

Module Sorting.
Import Torch.

Section gather.
Context {A : Type} `{Inhabited A}.
Implicit Types (l : list A) (perm : list nat).

Lemma gather_lookup l perm :
  Forall (λ i, (i < length l)%nat) perm →
  Forall2 (λ i a, l !! i = Some a) perm (gather l perm).
Proof.
  induction 1 as [|i perm Hi _ IH]; constructor; [|exact IH].
  by apply list_lookup_lookup_total_lt.
Qed.

Lemma gather_seq l : gather l (seq 0 (length l)) = l.
Proof.
  apply list_eq. intros i. unfold gather. rewrite list_lookup_fmap.
  destruct (decide (i < length l)%nat) as [Hi|Hi].
  - rewrite lookup_seq_lt by done. simpl.
    by rewrite (list_lookup_lookup_total_lt l i Hi).
  - rewrite lookup_seq_ge, lookup_ge_None_2 by lia. done.
Qed.

Lemma gather_Permutation l perm :
  perm ≡ₚ seq 0 (length l) → gather l perm ≡ₚ l.
Proof.
  intros Hperm. rewrite <- (gather_seq l) at 2. unfold gather. by rewrite Hperm.
Qed.

Lemma length_gather l perm : length (gather l perm) = length perm.
Proof. unfold gather. by rewrite length_fmap. Qed.

End gather.

Lemma in_range_Permutation (perm : list nat) n :
  perm ≡ₚ seq 0 n → Forall (λ i, (i < n)%nat) perm.
Proof.
  intros Hperm. rewrite Hperm. apply Forall_forall. intros i Hi.
  apply elem_of_seq in Hi. lia.
Qed.

Lemma gather_fmap {A B} `{Inhabited A, Inhabited B} (f : A → B) (l : list A) perm :
  Forall (λ i, (i < length l)%nat) perm →
  gather (f <$> l) perm = f <$> gather l perm.
Proof.
  intros Hperm. unfold gather. rewrite <- list_fmap_compose.
  apply Forall_fmap_ext. eapply Forall_impl; [exact Hperm|].
  intros i Hi. simpl. apply list_lookup_total_correct.
  rewrite list_lookup_fmap. by rewrite (list_lookup_lookup_total_lt l i Hi).
Qed.

(** The order on tagged keys is a total order. *)
#[local] Instance key_le_trans : Transitive key_le.
Proof. intros [a i] [b j] [c k]. unfold key_le. simpl. lia. Qed.

#[local] Instance key_le_total : Total key_le.
Proof. intros [a i] [b j]. unfold key_le. simpl. lia. Qed.

#[local] Instance key_le_antisymm : AntiSymm (=) key_le.
Proof.
  intros [a i] [b j]. unfold key_le. simpl. intros ? ?.
  f_equal; lia.
Qed.

Lemma argsort_Permutation keys : argsort keys ≡ₚ seq 0 (length keys).
Proof.
  unfold argsort. rewrite merge_sort_Permutation.
  apply reflexive_eq, snd_zip. by rewrite length_seq.
Qed.

Lemma length_argsort keys : length (argsort keys) = length keys.
Proof. by rewrite (Permutation_length (argsort_Permutation keys)), length_seq. Qed.

Lemma argsort_in_range keys : Forall (λ i, (i < length keys)%nat) (argsort keys).
Proof. apply in_range_Permutation, argsort_Permutation. Qed.

Lemma tagged_lookup (keys : list Z) :
  Forall (λ p : Z * nat, keys !! p.2 = Some p.1) (zip keys (seq 0 (length keys))).
Proof.
  apply Forall_lookup. intros i [k j] Hi.
  apply lookup_zip_with_Some in Hi as (k' & j' & [= -> ->] & Hk & Hj).
  apply lookup_seq in Hj as [-> _]. done.
Qed.

Lemma gather_argsort keys :
  gather keys (argsort keys)
  = fst <$> merge_sort key_le (zip keys (seq 0 (length keys))).
Proof.
  unfold argsort, gather. rewrite <- list_fmap_compose.
  apply Forall_fmap_ext.
  rewrite merge_sort_Permutation.
  eapply Forall_impl; [apply tagged_lookup|].
  intros [k i] Hk. simpl in *. by apply list_lookup_total_correct.
Qed.

Lemma argsort_Sorted keys : Sorted Z.le (gather keys (argsort keys)).
Proof.
  rewrite gather_argsort.
  apply (Sorted_fmap _ key_le); [|apply (Sorted_merge_sort key_le)].
  intros [a i] [b j]. unfold key_le. simpl. lia.
Qed.

Lemma argsort_is_argsort keys : is_argsort keys (argsort keys).
Proof. split; [apply argsort_Permutation | apply argsort_Sorted]. Qed.

Lemma Sorted_tagged (keys : list Z) : ∀ j,
  Sorted Z.le keys → Sorted key_le (zip keys (seq j (length keys))).
Proof.
  induction keys as [|k keys IH]; intros j Hs; simpl; [constructor|].
  apply Sorted_inv in Hs as [Hs Hhd].
  constructor; [by apply IH|].
  destruct Hhd as [|k' keys' Hle]; simpl; constructor.
  unfold key_le. simpl. lia.
Qed.

(** Sorting keys that are already in order moves nothing. *)
Lemma argsort_sorted keys :
  Sorted Z.le keys → argsort keys = seq 0 (length keys).
Proof.
  intros Hs. unfold argsort.
  rewrite (Sorted_unique key_le
             (merge_sort key_le (zip keys (seq 0 (length keys))))
             (zip keys (seq 0 (length keys)))).
  - apply snd_zip. by rewrite length_seq.
  - apply (Sorted_merge_sort key_le).
  - by apply Sorted_tagged.
  - apply merge_sort_Permutation.
Qed.

(** With pairwise different keys there is one sorting permutation only:
    every implementation of [argsort] returns what [argsort] returns. *)
Lemma is_argsort_unique keys perm :
  NoDup keys → is_argsort keys perm → perm = argsort keys.
Proof.
  intros Hnd [Hperm Hsorted].
  assert (gather keys perm = gather keys (argsort keys)) as Heq.
  { apply (Sorted_unique Z.le); [done|apply argsort_Sorted|].
    rewrite !gather_Permutation; [done|apply argsort_Permutation|done]. }
  pose proof (in_range_Permutation _ _ Hperm) as Hr1.
  pose proof (argsort_in_range keys) as Hr2.
  revert Heq Hr1 Hr2. generalize (argsort keys) as perm'. clear Hperm Hsorted.
  induction perm as [|i perm IH]; intros [|i' perm'] Heq Hr1 Hr2;
    try discriminate; [done|].
  apply Forall_cons in Hr1 as [Hi Hr1]. apply Forall_cons in Hr2 as [Hi' Hr2].
  injection Heq as Hhd Htl. f_equal; [|by apply IH].
  apply (list_lookup_lookup_total_lt keys) in Hi, Hi'.
  rewrite Hhd in Hi. by eapply NoDup_lookup.
Qed.

End Sorting.

(** ** The edges of a molecule *)

Module Edges.
Import Torch Chem MyDataset Sorting.

Lemma bond_loop bonds : ∀ acc,
  foldl write_bond acc bonds
  = (acc.1 ++ (pair_of <$> (bonds ≫= bond_triples)),
     acc.2 ++ (snd <$> (bonds ≫= bond_triples))).
Proof.
  induction bonds as [|bond bonds IH]; intros [edge_indices edge_attrs].
  - simpl. by rewrite !app_nil_r.
  - cbn [foldl]. rewrite IH, bind_cons, !fmap_app. simpl.
    by rewrite <- !app_assoc.
Qed.

Lemma t_pairs es : t (pair_of <$> es) = cols es.
Proof. unfold t, cols. by rewrite <- !list_fmap_compose. Qed.

Lemma mul_add_cols n es :
  mul_add (cols es !!! 0%nat) (Z.of_nat n) (cols es !!! 1%nat) = wkey n <$> es.
Proof.
  unfold mul_add. simpl.
  rewrite zip_with_fmap_l, zip_with_fmap_r, zip_with_diag. done.
Qed.

Lemma gather_cols_cols es perm :
  Forall (λ i, (i < length es)%nat) perm →
  gather_cols (cols es) perm = cols (gather es perm).
Proof.
  intros Hperm. unfold gather_cols, cols. simpl.
  by rewrite !gather_fmap.
Qed.

Lemma numel_cols es : numel (cols es) = (length es + length es)%nat.
Proof. unfold numel, cols. simpl. rewrite !length_fmap. lia. Qed.

(** Sorting the tensors of a list of triples sorts the triples. *)
Lemma sort_edges_triples n es :
  sort_edges n (cols es) (feats es)
  = (cols (gather es (argsort (wkey n <$> es))),
     feats (gather es (argsort (wkey n <$> es)))).
Proof.
  unfold sort_edges. rewrite numel_cols. case_bool_decide as Hnum.
  - rewrite mul_add_cols.
    pose proof (argsort_in_range (wkey n <$> es)) as Hr.
    rewrite length_fmap in Hr.
    rewrite gather_cols_cols by done. unfold feats. by rewrite gather_fmap.
  - destruct es; [done|simpl in Hnum; lia].
Qed.

(** The edge-attribute branch, on triples. *)
Lemma edges_with_attr_triples x mol :
  edges_with_attr x mol
  = (cols (gather (triples mol) (argsort (wkey (size0 x) <$> triples mol))),
     feats (gather (triples mol) (argsort (wkey (size0 x) <$> triples mol)))).
Proof.
  unfold edges_with_attr. rewrite bond_loop. simpl.
  rewrite t_pairs. unfold unsqueeze1. rewrite <- list_fmap_compose.
  apply sort_edges_triples.
Qed.

Lemma length_triples mol : length (triples mol) = (2 * GetNumBonds mol)%nat.
Proof.
  unfold triples, GetNumBonds.
  induction (GetBonds mol) as [|bond bonds IH]; [done|].
  rewrite bind_cons, length_app, IH. simpl. lia.
Qed.

Lemma entries_cols es :
  entries (cols es) (feats es) = (λ e, (e.1.1, e.1.2, [e.2])) <$> es.
Proof.
  unfold entries, cols, feats. simpl.
  induction es as [|e es IH]; [done|]. csimpl. f_equal. exact IH.
Qed.

Lemma triples_entries mol :
  (λ e : Z * Z * Z, (e.1.1, e.1.2, [e.2])) <$> triples mol
  = GetBonds mol ≫= bond_entries.
Proof.
  unfold triples.
  induction (GetBonds mol) as [|bond bonds IH]; [done|].
  rewrite !bind_cons, fmap_app, IH. done.
Qed.

End Edges.

(** ** Molecules that satisfy the toolkit's invariants *)

Module WellFormed.
Import Torch Chem MyDataset Sorting Edges.

Lemma wrap64_small z : - 2 ^ 63 ≤ z < 2 ^ 63 → wrap64 z = z.
Proof. intros Hz. unfold wrap64. rewrite Z.mod_small; lia. Qed.

Lemma wkey_sort_key n e :
  Z.of_nat n < 2 ^ 31 → 0 ≤ e.1.1 < Z.of_nat n → 0 ≤ e.1.2 < Z.of_nat n →
  wkey n e = sort_key n e.1.1 e.1.2.
Proof.
  intros Hn Hs Hd. unfold wkey, sort_key.
  assert (0 ≤ e.1.1 * Z.of_nat n < 2 ^ 62) by nia.
  rewrite (wrap64_small (e.1.1 * Z.of_nat n)) by lia.
  apply wrap64_small. lia.
Qed.

Lemma elem_of_triples mol e :
  e ∈ triples mol ↔
  ∃ bond, bond ∈ GetBonds mol ∧
    (e = (Z.of_nat (Bond.GetBeginAtomIdx bond), Z.of_nat (Bond.GetEndAtomIdx bond), bond_attr bond)
     ∨ e = (Z.of_nat (Bond.GetEndAtomIdx bond), Z.of_nat (Bond.GetBeginAtomIdx bond), bond_attr bond)).
Proof.
  unfold triples. rewrite list_elem_of_bind. split.
  - intros (bond & He & Hbond). exists bond. split; [done|].
    unfold bond_triples in He.
    apply elem_of_cons in He as [-> | He]; [by left|].
    apply list_elem_of_singleton in He as ->. by right.
  - intros (bond & Hbond & He). exists bond. split; [|done].
    unfold bond_triples.
    destruct He as [-> | ->]; [|apply elem_of_cons; right]; apply elem_of_cons; by left.
Qed.

Lemma triples_in_range mol :
  wf_mol mol →
  Forall (λ e : Z * Z * Z,
    0 ≤ e.1.1 < Z.of_nat (GetNumAtoms mol) ∧ 0 ≤ e.1.2 < Z.of_nat (GetNumAtoms mol))
    (triples mol).
Proof.
  intros (Hbonds & _ & _). apply Forall_forall. intros e He.
  apply elem_of_triples in He as (bond & Hbond & He).
  rewrite Forall_forall in Hbonds. destruct (Hbonds _ Hbond) as (Hb & He' & _).
  destruct He as [-> | ->]; simpl; lia.
Qed.

Lemma wkey_triples n mol :
  wf_mol mol → n = GetNumAtoms mol →
  Forall (λ e, wkey n e = sort_key n e.1.1 e.1.2) (triples mol).
Proof.
  intros Hwf ->. eapply Forall_impl; [by apply triples_in_range|].
  intros e [Hs Hd]. apply wkey_sort_key; [apply Hwf|done..].
Qed.

Lemma elem_of_pairs bonds p :
  p ∈ pair_of <$> (bonds ≫= bond_triples) ↔
  ∃ bond, bond ∈ bonds ∧
    (p = [Z.of_nat (Bond.GetBeginAtomIdx bond); Z.of_nat (Bond.GetEndAtomIdx bond)]
     ∨ p = [Z.of_nat (Bond.GetEndAtomIdx bond); Z.of_nat (Bond.GetBeginAtomIdx bond)]).
Proof.
  rewrite list_elem_of_fmap. split.
  - intros (e & -> & He). apply list_elem_of_bind in He as (bond & He & Hbond).
    exists bond. split; [done|]. unfold bond_triples in He.
    apply elem_of_cons in He as [-> | He]; [by left|].
    apply list_elem_of_singleton in He as ->. by right.
  - intros (bond & Hbond & Hp).
    destruct Hp as [-> | ->]; eexists; (split; [|apply list_elem_of_bind; exists bond; split; [|done]]);
      [|apply elem_of_cons; left; reflexivity| |apply elem_of_cons; right; apply elem_of_cons; left; reflexivity];
      done.
Qed.

Lemma pair_ends bonds (b e : nat) :
  [Z.of_nat b; Z.of_nat e] ∈ pair_of <$> (bonds ≫= bond_triples) →
  (b `min` e, b `max` e)%nat ∈ ends <$> bonds.
Proof.
  intros Hp. apply elem_of_pairs in Hp as (bond & Hbond & Hp).
  apply list_elem_of_fmap. exists bond. split; [|done]. unfold ends.
  destruct Hp as [[= Hb He] | [= Hb He]];
    apply Nat2Z.inj in Hb, He; subst; f_equal; lia.
Qed.

(** No directed pair is emitted twice. *)
Lemma NoDup_pairs mol : wf_mol mol → NoDup (pair_of <$> triples mol).
Proof.
  intros (Hbonds & Hnd & _). unfold triples.
  induction (GetBonds mol) as [|bond bonds IH]; [constructor|].
  apply Forall_cons in Hbonds as [(_ & _ & Hne) Hbonds].
  rewrite fmap_cons in Hnd. apply NoDup_cons in Hnd as [Hfresh Hnd].
  rewrite bind_cons, fmap_app. cbn [bond_triples fmap list_fmap app pair_of fst snd].
  apply NoDup_cons. split; [|apply NoDup_cons; split; [|by apply IH]].
  - intros Hin. apply elem_of_cons in Hin as [[= Hb _] | Hin].
    + apply Nat2Z.inj in Hb. done.
    + apply Hfresh. by apply pair_ends in Hin.
  - intros Hin. apply pair_ends in Hin. apply Hfresh. unfold ends.
    by rewrite Nat.min_comm, Nat.max_comm.
Qed.

Lemma sort_key_inj n s d s' d' :
  0 ≤ d < Z.of_nat n → 0 ≤ d' < Z.of_nat n →
  sort_key n s d = sort_key n s' d' → s = s' ∧ d = d'.
Proof.
  unfold sort_key. intros Hd Hd' Heq.
  assert (s = s') as ->; [|lia].
  destruct (Z.lt_trichotomy s s') as [Hlt | [Heq' | Hgt]]; [nia|done|nia].
Qed.

(** The keys of the emitted edges are pairwise different. *)
Lemma NoDup_keys n mol :
  wf_mol mol → n = GetNumAtoms mol → NoDup (wkey n <$> triples mol).
Proof.
  intros Hwf ->.
  pose proof (triples_in_range mol Hwf) as Hr.
  pose proof (wkey_triples _ mol Hwf eq_refl) as Hk.
  rewrite Forall_forall in Hr, Hk.
  pose proof (NoDup_pairs mol Hwf) as Hnd.
  apply NoDup_fmap_2_strong; [|by eapply NoDup_fmap_1].
  intros e e' He He' Heq. rewrite (Hk _ He), (Hk _ He') in Heq.
  apply sort_key_inj in Heq as [Hs Hd]; [|apply Hr; done..].
  apply list_elem_of_lookup in He as [i Hi], He' as [i' Hi'].
  assert (i = i') as <-; [|congruence].
  eapply NoDup_lookup; [exact Hnd|rewrite list_lookup_fmap, Hi|rewrite list_lookup_fmap, Hi'];
    simpl; [done|]. unfold pair_of. by rewrite Hs, Hd.
Qed.

End WellFormed.

(** ** The adjacency matrix and its sparse form *)

Module Adjacency.
Import Torch Chem MyDataset Sorting Edges WellFormed.

Lemma imap_fmap_seq {A B} (f : nat → A → B) (g : nat → A) n :
  imap f (g <$> seq 0 n) = (λ i, f i (g i)) <$> seq 0 n.
Proof.
  rewrite (imap_ext _ (λ j _, f j (g j))).
  - by rewrite imap_seq_0, length_fmap, length_seq.
  - intros i a Ha. rewrite list_lookup_fmap in Ha.
    destruct (seq 0 n !! i) as [j|] eqn:Hj; [|discriminate].
    apply lookup_seq in Hj as [-> _]. simpl in Ha. congruence.
Qed.

Lemma join_fmap {A B} (f : A → list B) (l : list A) : mjoin (f <$> l) = l ≫= f.
Proof. by rewrite list_join_bind, list_fmap_bind. Qed.

(** The sparse form of the adjacency matrix lists the bonded pairs row by
    row. *)
Lemma nonzero_adjacency mol :
  nonzero (GetAdjacencyMatrix mol)
  = seq 0 (GetNumAtoms mol) ≫= λ i,
      seq 0 (GetNumAtoms mol) ≫= λ j,
        if bonded mol i j then [[Z.of_nat i; Z.of_nat j]] else [].
Proof.
  unfold nonzero, GetAdjacencyMatrix.
  rewrite imap_fmap_seq, join_fmap.
  apply list_bind_ext; [|done]. intros i.
  rewrite imap_fmap_seq, join_fmap.
  apply list_bind_ext; [|done]. intros j.
  by destruct (bonded mol i j).
Qed.

Lemma bonded_joins mol i j :
  bonded mol i j = true ↔
  ∃ bond, bond ∈ GetBonds mol ∧
    ((Bond.GetBeginAtomIdx bond = i ∧ Bond.GetEndAtomIdx bond = j)
     ∨ (Bond.GetBeginAtomIdx bond = j ∧ Bond.GetEndAtomIdx bond = i)).
Proof.
  unfold bonded. rewrite existsb_exists. unfold joins.
  split; intros (bond & Hbond & Hj); exists bond.
  - apply list_elem_of_In in Hbond. split; [done|].
    apply orb_true_iff in Hj as [Hj | Hj]; apply bool_decide_eq_true in Hj; auto.
  - apply list_elem_of_In in Hbond. split; [done|].
    apply orb_true_iff. destruct Hj as [Hj | Hj]; [left | right];
      by apply bool_decide_eq_true.
Qed.

Lemma elem_of_nonzero_adjacency mol p :
  p ∈ nonzero (GetAdjacencyMatrix mol) ↔
  ∃ i j, (i < GetNumAtoms mol)%nat ∧ (j < GetNumAtoms mol)%nat
         ∧ bonded mol i j = true ∧ p = [Z.of_nat i; Z.of_nat j].
Proof.
  rewrite nonzero_adjacency, list_elem_of_bind. split.
  - intros (i & Hp & Hi). apply list_elem_of_bind in Hp as (j & Hp & Hj).
    apply elem_of_seq in Hi, Hj. exists i, j.
    destruct (bonded mol i j); [|by apply elem_of_nil in Hp].
    apply list_elem_of_singleton in Hp. repeat split; [lia..|done].
  - intros (i & j & Hi & Hj & Hb & ->). exists i.
    split; [|apply elem_of_seq; lia].
    apply list_elem_of_bind. exists j. split; [|apply elem_of_seq; lia].
    rewrite Hb. by apply list_elem_of_singleton.
Qed.

Lemma StronglySorted_seq j n : StronglySorted lt (seq j n).
Proof.
  revert j. induction n as [|n IH]; intros j; simpl; constructor; [apply IH|].
  apply Forall_seq. lia.
Qed.

Lemma StronglySorted_bind {A B} (R' : relation A) (R : relation B)
    (F : A → list B) (l : list A) :
  StronglySorted R' l →
  (∀ a, a ∈ l → StronglySorted R (F a)) →
  (∀ a a' b b', a ∈ l → a' ∈ l → R' a a' → b ∈ F a → b' ∈ F a' → R b b') →
  StronglySorted R (l ≫= F).
Proof.
  induction 1 as [|a l Hl IH Ha]; intros HF Hcross; [constructor|].
  rewrite bind_cons. apply StronglySorted_app_2.
  - intros b b' Hb Hb'. apply list_elem_of_bind in Hb' as (a' & Hb' & Ha').
    rewrite Forall_forall in Ha.
    apply (Hcross a a'); [by left|by right|by apply Ha|done..].
  - apply HF. by left.
  - apply IH.
    + intros a' Ha'. apply HF. by right.
    + intros a1 a2 b1 b2 H1 H2. apply Hcross; by right.
Qed.

(** Row-major order is the order of the composite key. *)
Lemma nonzero_adjacency_sorted mol :
  StronglySorted (λ p q, pair_key (GetNumAtoms mol) p < pair_key (GetNumAtoms mol) q)
    (nonzero (GetAdjacencyMatrix mol)).
Proof.
  rewrite nonzero_adjacency.
  apply (StronglySorted_bind lt); [apply StronglySorted_seq| |].
  - intros i Hi. apply (StronglySorted_bind lt); [apply StronglySorted_seq| |].
    + intros j _. destruct (bonded mol i j); repeat constructor.
    + intros j j' p q _ _ Hlt Hp Hq.
      destruct (bonded mol i j); [|by apply elem_of_nil in Hp].
      destruct (bonded mol i j'); [|by apply elem_of_nil in Hq].
      apply list_elem_of_singleton in Hp as ->, Hq as ->.
      unfold pair_key, sort_key. simpl. lia.
  - intros i i' p q _ _ Hlt Hp Hq.
    apply list_elem_of_bind in Hp as (j & Hp & Hj), Hq as (j' & Hq & Hj').
    apply elem_of_seq in Hj, Hj'.
    destruct (bonded mol i j); [|by apply elem_of_nil in Hp].
    destruct (bonded mol i' j'); [|by apply elem_of_nil in Hq].
    apply list_elem_of_singleton in Hp as ->, Hq as ->.
    unfold pair_key, sort_key. simpl. nia.
Qed.

Lemma StronglySorted_irrefl_NoDup {A} (R : relation A) (l : list A) :
  (∀ a, ¬ R a a) → StronglySorted R l → NoDup l.
Proof.
  intros Hirr. induction 1 as [|a l Hl IH Ha]; constructor; [|done].
  intros Hin. rewrite Forall_forall in Ha. by apply (Hirr a), Ha.
Qed.

Lemma StronglySorted_le_lt (l : list Z) :
  NoDup l → StronglySorted Z.le l → StronglySorted Z.lt l.
Proof.
  intros Hnd. induction 1 as [|a l Hl IH Ha]; constructor.
  - apply IH. by apply NoDup_cons in Hnd as [_ ?].
  - apply NoDup_cons in Hnd as [Hnotin _].
    rewrite Forall_forall in Ha. apply Forall_forall. intros b Hb.
    assert (a ≠ b) by (intros ->; done). specialize (Ha b Hb). lia.
Qed.

Lemma StronglySorted_fmap_inv {A B} (R : relation B) (f : A → B) (l : list A) :
  StronglySorted R (f <$> l) → StronglySorted (λ a b, R (f a) (f b)) l.
Proof.
  induction l as [|a l IH]; [constructor|]. rewrite fmap_cons.
  intros [Ha Hl]%StronglySorted_cons. constructor; [by apply IH|].
  by rewrite Forall_fmap in Ha.
Qed.

End Adjacency.

(** ** Doubles: the product of a length with [.8] *)

Module FloatFacts.
Import Python.

Lemma digits2_pos_bounds (p : positive) :
  2 ^ (Z.pos (digits2_pos p) - 1) ≤ Z.pos p < 2 ^ Z.pos (digits2_pos p).
Proof.
  induction p as [p IH|p IH|]; cbn [digits2_pos]; [| |by compute].
  - rewrite Pos2Z.inj_succ, Z.pow_succ_r by lia.
    replace (Z.succ (Z.pos (digits2_pos p)) - 1)
      with (Z.succ (Z.pos (digits2_pos p) - 1)) by lia.
    rewrite Z.pow_succ_r by lia. lia.
  - rewrite Pos2Z.inj_succ, Z.pow_succ_r by lia.
    replace (Z.succ (Z.pos (digits2_pos p)) - 1)
      with (Z.succ (Z.pos (digits2_pos p) - 1)) by lia.
    rewrite Z.pow_succ_r by lia. lia.
Qed.

(** The number of digits is determined by the bounds. *)
Lemma digits2_pos_unique (p : positive) (d : Z) :
  2 ^ (d - 1) ≤ Z.pos p < 2 ^ d → 0 < d → Z.pos (digits2_pos p) = d.
Proof.
  intros [Hlo Hhi] Hd. pose proof (digits2_pos_bounds p) as [Hlo' Hhi'].
  assert (d - 1 < Z.pos (digits2_pos p)).
  { apply (Z.pow_lt_mono_r_iff 2); lia. }
  assert (Z.pos (digits2_pos p) - 1 < d).
  { apply (Z.pow_lt_mono_r_iff 2); lia. }
  lia.
Qed.

Lemma iter_xO (p d : positive) : Z.pos (Pos.iter xO p d) = Z.pos p * 2 ^ Z.pos d.
Proof.
  induction d as [|d IH] using Pos.peano_ind.
  - simpl. lia.
  - rewrite Pos.iter_succ, Pos2Z.inj_succ, Z.pow_succ_r by lia.
    rewrite Pos2Z.inj_xO, IH. lia.
Qed.

Lemma shr_1_m (mrs : shr_record) :
  0 ≤ shr_m mrs → shr_m (shr_1 mrs) = shr_m mrs / 2.
Proof.
  destruct mrs as [m r s]. cbn [shr_m]. intros Hm.
  destruct m as [|[p|p|]|p]; cbn [shr_1 shr_m]; [done| | |done|lia].
  - rewrite Pos2Z.inj_xI. apply (Z.div_unique _ _ _ 1); lia.
  - rewrite Pos2Z.inj_xO. apply (Z.div_unique _ _ _ 0); lia.
Qed.

Lemma iter_pos_shr_m (p : positive) : ∀ mrs,
  0 ≤ shr_m mrs → shr_m (SpecFloat.iter_pos shr_1 p mrs) = shr_m mrs / 2 ^ Z.pos p.
Proof.
  assert (∀ m k, 0 ≤ m → 0 ≤ m / 2 ^ Z.pos k) as Hpos.
  { intros m k Hm. apply Z.div_pos; [done|]. apply Z.pow_pos_nonneg; lia. }
  assert (∀ k, 0 < 2 ^ Z.pos k) as Hpow by (intros k; apply Z.pow_pos_nonneg; lia).
  induction p as [p IH|p IH|]; intros mrs Hm; cbn [SpecFloat.iter_pos].
  - pose proof (shr_1_m mrs Hm) as H1.
    assert (0 ≤ shr_m (shr_1 mrs)) as Hm1 by (rewrite H1; apply Z.div_pos; lia).
    rewrite IH by (rewrite IH by done; by apply Hpos).
    rewrite IH, H1 by done.
    assert (2 ^ Z.pos p~1 = 2 * 2 ^ Z.pos p * 2 ^ Z.pos p) as ->.
    { replace (Z.pos p~1) with (1 + Z.pos p + Z.pos p) by lia.
      rewrite !Z.pow_add_r by lia. lia. }
    pose proof (Hpow p).
    rewrite !Z.div_div by lia. f_equal. lia.
  - rewrite IH by (rewrite IH by done; by apply Hpos).
    rewrite IH by done.
    assert (2 ^ Z.pos p~0 = 2 ^ Z.pos p * 2 ^ Z.pos p) as ->.
    { replace (Z.pos p~0) with (Z.pos p + Z.pos p) by lia.
      by rewrite Z.pow_add_r by lia. }
    pose proof (Hpow p).
    rewrite !Z.div_div by lia. done.
  - rewrite shr_1_m by done. done.
Qed.

Lemma round_nearest_even_cases (m : Z) (l : location) :
  round_nearest_even m l = m ∨ round_nearest_even m l = m + 1.
Proof.
  destruct l as [|[]]; simpl; auto. destruct (Z.even m); auto.
Qed.

Lemma binary_round_aux_eq (sx : bool) (mx ex : Z) (lx : location) :
  binary_round_aux prec emax sx mx ex lx
  = let r' := shr_fexp prec emax mx ex lx in
    let r'' := shr_fexp prec emax
                 (round_nearest_even (shr_m r'.1) (loc_of_shr_record r'.1))
                 r'.2 loc_Exact in
    match shr_m r''.1 with
    | 0 => S754_zero sx
    | Z.pos m =>
        if r''.2 <=? emax - prec then S754_finite sx m r''.2 else S754_infinity sx
    | Z.neg _ => S754_nan
    end.
Proof.
  unfold binary_round_aux. destruct (shr_fexp prec emax mx ex lx) as [mrs' e'].
  cbn [fst snd]. by destruct (shr_fexp _ _ _ e' loc_Exact) as [mrs'' e''].
Qed.

(** A mantissa of exactly 53 digits is left alone. *)
Lemma shr_fexp_53 (m : positive) (e : Z) (l : location) :
  Z.pos (digits2_pos m) = 53 → -1074 ≤ e →
  shr_fexp prec emax (Z.pos m) e l = (shr_record_of_loc (Z.pos m) l, e).
Proof.
  intros Hd He. unfold shr_fexp, fexp, emin, prec, emax, Zdigits2. rewrite Hd.
  replace (Z.max (53 + e - 53) (3 - 1024 - 53) - e) with 0 by lia. done.
Qed.

(** A longer mantissa is shifted down to 53 digits. *)
Lemma shr_fexp_shift (m : positive) (e : Z) :
  let d := Z.pos (digits2_pos m) in
  53 < d → -1074 ≤ d + e - 53 →
  ∃ mrs, shr_fexp prec emax (Z.pos m) e loc_Exact = (mrs, e + (d - 53))
         ∧ shr_m mrs = Z.pos m / 2 ^ (d - 53).
Proof.
  intros d Hd He. unfold shr_fexp, fexp, emin, prec, emax, Zdigits2. fold d.
  replace (Z.max (d + e - 53) (3 - 1024 - 53) - e)
    with (Z.pos (Z.to_pos (d - 53))) by (rewrite Z2Pos.id; lia).
  cbn [shr shr_record_of_loc]. eexists. split.
  - rewrite Z2Pos.id by lia. reflexivity.
  - rewrite iter_pos_shr_m by (cbn [shr_m]; lia).
    cbn [shr_m]. by rewrite Z2Pos.id by lia.
Qed.

Lemma pow2_split (a b : Z) : 0 ≤ a → 0 ≤ b → 2 ^ (a + b) = 2 ^ a * 2 ^ b.
Proof. intros. by rewrite Z.pow_add_r. Qed.

(** The integer part of a positive number rounded to a double: the number
    is cut to 53 digits and the last digit kept may go up by one. *)
Lemma round_aux_int (M : positive) (E : Z) :
  let d := Z.pos (digits2_pos M) in
  53 < d → -1074 ≤ d + E - 53 → d + E - 53 < 0 →
  ∃ m1,
    (m1 = Z.pos M / 2 ^ (d - 53) ∨ m1 = Z.pos M / 2 ^ (d - 53) + 1)
    ∧ int_of_float (binary_round_aux prec emax false (Z.pos M) E loc_Exact)
      = Ok (m1 / 2 ^ (- (d + E - 53))).
Proof.
  intros d Hd Hmin Hneg.
  destruct (shr_fexp_shift M E Hd Hmin) as (mrs & Hshr & Hq).
  fold d in Hshr, Hq.
  rewrite binary_round_aux_eq, Hshr. cbv zeta. cbn [fst snd].
  set (m1 := round_nearest_even (shr_m mrs) (loc_of_shr_record mrs)).
  exists m1. split.
  { rewrite <- Hq. apply round_nearest_even_cases. }
  assert (0 < 2 ^ (d - 53)) as Hpow by (apply Z.pow_pos_nonneg; lia).
  assert (2 ^ 52 ≤ shr_m mrs < 2 ^ 53) as Hqb.
  { pose proof (digits2_pos_bounds M) as [Hlo Hhi]. fold d in Hlo, Hhi.
    assert (2 ^ (d - 1) = 2 ^ 52 * 2 ^ (d - 53)) as E1
      by (rewrite <- pow2_split by lia; f_equal; lia).
    assert (2 ^ d = 2 ^ 53 * 2 ^ (d - 53)) as E2
      by (rewrite <- pow2_split by lia; f_equal; lia).
    rewrite E1 in Hlo. rewrite E2 in Hhi.
    rewrite Hq. split.
    - apply Z.div_le_lower_bound; lia.
    - apply Z.div_lt_upper_bound; lia. }
  assert (2 ^ 52 ≤ m1 ≤ 2 ^ 53) as Hm1.
  { destruct (round_nearest_even_cases (shr_m mrs) (loc_of_shr_record mrs));
      unfold m1; lia. }
  set (e' := E + (d - 53)) in *.
  replace (- (d + E - 53)) with (- e') by (unfold e'; lia).
  assert (-1074 ≤ e' < 0) as He' by (unfold e'; lia).
  clearbody m1 e'. clear Hshr Hq Hqb.
  destruct m1 as [|pm1|pm1]; [lia| |lia].
  destruct (decide (Z.pos pm1 < 2 ^ 53)) as [Hlt|Hge].
  - rewrite shr_fexp_53 by (try apply digits2_pos_unique; lia).
    cbn [fst snd shr_m shr_record_of_loc].
    replace (e' <=? emax - prec) with true by (unfold emax, prec; lia).
    destruct e' as [|j|j]; [lia..|]. done.
  - assert (pm1 = 9007199254740992%positive) as -> by lia.
    unfold shr_fexp, fexp, emin, prec, emax, Zdigits2.
    change (Z.pos (digits2_pos 9007199254740992)) with 54.
    replace (Z.max (54 + e' - 53) (3 - 1024 - 53) - e') with 1 by lia.
    cbn [shr shr_record_of_loc SpecFloat.iter_pos shr_1 fst snd shr_m].
    replace (e' + 1 <=? 1024 - 53) with true by lia.
    cbn [int_of_float cond_Zopp]. f_equal.
    destruct (decide (e' = -1)) as [->|Hne]; [done|].
    replace (- e') with (1 + (- (e' + 1))) by lia.
    rewrite (pow2_split 1 (- (e' + 1))) by lia.
    destruct (e' + 1) as [|j|j] eqn:Hj; [lia..|].
    change (- Z.neg j) with (Z.pos j).
    change (Z.pos 9007199254740992) with (2 ^ 1 * Z.pos 4503599627370496).
    rewrite Z.div_mul_cancel_l; [done| |lia].
    apply Z.pow_nonzero; lia.
Qed.

(** A length below 2^50 converts to a double exactly. *)
Lemma float_of_int_small (n : Z) :
  0 < n < 2 ^ 50 →
  ∃ mz a,
    float_of_int n = Ok (S754_finite false mz (- a))
    ∧ 3 ≤ a ≤ 52
    ∧ Z.pos mz = n * 2 ^ a
    ∧ 2 ^ 52 ≤ Z.pos mz < 2 ^ 53.
Proof.
  intros Hn. destruct n as [|p|p]; [lia| |lia].
  pose proof (digits2_pos_bounds p) as [Hlo Hhi].
  set (dn := Z.pos (digits2_pos p)) in *.
  assert (0 < dn) as Hdn by (unfold dn; lia).
  assert (dn - 1 < 50) as Hdn' by (apply (Z.pow_lt_mono_r_iff 2); lia).
  set (a := 53 - dn).
  assert (0 < 2 ^ a) as Hpow by (apply Z.pow_pos_nonneg; lia).
  assert (2 ^ 52 = 2 ^ (dn - 1) * 2 ^ a) as E1
    by (rewrite <- pow2_split by lia; f_equal; lia).
  assert (2 ^ 53 = 2 ^ dn * 2 ^ a) as E2
    by (rewrite <- pow2_split by lia; f_equal; lia).
  exists (Pos.iter xO p (Z.to_pos a)), a.
  assert (Z.pos (Pos.iter xO p (Z.to_pos a)) = Z.pos p * 2 ^ a) as Hmz
    by (rewrite iter_xO, Z2Pos.id by lia; done).
  assert (2 ^ 52 ≤ Z.pos (Pos.iter xO p (Z.to_pos a)) < 2 ^ 53) as Hb.
  { rewrite Hmz, E1, E2. split.
    - apply Z.mul_le_mono_nonneg_r; lia.
    - apply Z.mul_lt_mono_pos_r; lia. }
  split; [|split; [lia|split; [done|done]]].
  unfold float_of_int, binary_normalize, binary_round.
  replace (fexp prec emax (Z.pos (digits2_pos p) + 0)) with (Z.neg (Z.to_pos a)).
  2:{ unfold fexp, emin, prec, emax. fold dn.
      pose proof (Z2Pos.id a). lia. }
  change (shl_align p 0 (Z.neg (Z.to_pos a)))
    with (Pos.iter xO p (Z.to_pos a), Z.neg (Z.to_pos a)).
  cbv iota beta.
  replace (Z.neg (Z.to_pos a)) with (- a) by (pose proof (Z2Pos.id a); lia).
  rewrite binary_round_aux_eq.
  rewrite shr_fexp_53 by (try apply digits2_pos_unique; lia).
  cbv zeta. cbn [fst snd shr_record_of_loc shr_m loc_of_shr_record round_nearest_even].
  rewrite shr_fexp_53 by (try apply digits2_pos_unique; lia).
  cbn [fst snd shr_record_of_loc shr_m].
  replace (- a <=? emax - prec) with true by (unfold emax, prec; lia).
  done.
Qed.

(** The double nearest to 8/10 is (4 * 2^53 + 2) / 5 * 2^-53. *)
Lemma float_08_fraction : 5 * 7205759403792794 = 4 * 2 ^ 53 + 2.
Proof. reflexivity. Qed.

(** [int(n * .8)] is the integer part of 4 n / 5 for every length below
    2^50. *)
Lemma split_point_value (n : Z) :
  0 ≤ n < 2 ^ 50 → split_point n = Ok (4 * n / 5).
Proof.
  intros Hn. destruct (decide (n = 0)) as [->|Hpos]; [reflexivity|].
  unfold split_point.
  destruct (float_of_int_small n) as (mz & a & -> & Ha & Hmz & Hmzb); [lia|].
  cbn [mbind result_bind]. unfold float_mul, float_08, SFmul. cbn [xorb].
  set (my := 7205759403792794%positive).
  set (M := (mz * my)%positive).
  assert (Z.pos M = Z.pos mz * Z.pos my) as HM by (unfold M; lia).
  assert (2 ^ 104 ≤ Z.pos M < 2 ^ 106) as HMb by (unfold my in HM; nia).
  pose proof (digits2_pos_bounds M) as [Hlo Hhi].
  set (d := Z.pos (digits2_pos M)) in *.
  assert (104 < d) as Hd1 by (apply (Z.pow_lt_mono_r_iff 2); lia).
  assert (d - 1 < 106) as Hd2 by (apply (Z.pow_lt_mono_r_iff 2); lia).
  destruct (round_aux_int M (- a + -53)) as (m1 & Hm1 & ->); [fold d; lia..|].
  fold d in Hm1 |- *.
  f_equal.
  set (j := - (d + (- a + -53) - 53)).
  assert (0 ≤ j) as Hj by (unfold j; lia).
  assert (0 < 2 ^ j) as HJ by (apply Z.pow_pos_nonneg; lia).
  assert (0 < 2 ^ (d - 53)) as HS by (apply Z.pow_pos_nonneg; lia).
  assert (2 ^ (d - 53) ≤ 2 ^ 53) as HS' by (apply Z.pow_le_mono_r; lia).
  assert (2 ^ 3 ≤ 2 ^ a) as HA by (apply Z.pow_le_mono_r; lia).
  assert (2 ^ j * 2 ^ (d - 53) = 2 ^ a * 2 ^ 53) as HJS.
  { rewrite <- !pow2_split by lia. f_equal. unfold j. lia. }
  pose proof (Z.mul_div_le (Z.pos M) (2 ^ (d - 53)) HS) as Hq1.
  pose proof (Z.mul_succ_div_gt (Z.pos M) (2 ^ (d - 53)) HS) as Hq2.
  pose proof (Z.mul_div_le (4 * n) 5 ltac:(lia)) as HK1.
  pose proof (Z.mul_succ_div_gt (4 * n) 5 ltac:(lia)) as HK2.
  set (K := 4 * n / 5) in *.
  set (q := Z.pos M / 2 ^ (d - 53)) in *.
  set (A := 2 ^ a) in *. set (S := 2 ^ (d - 53)) in *. set (J := 2 ^ j) in *.
  (* the exact product, times 5: n * A * (4 * 2^53 + 2) *)
  assert (5 * Z.pos M = (n * A) * (4 * 2 ^ 53 + 2)) as HM5
    by (rewrite HM, Hmz; unfold my; lia).
  assert (5 * (K * A) ≤ 4 * (n * A)) as HKA1 by nia.
  assert (4 * (n * A) + A ≤ 5 * (K * A) + 5 * A) as HKA2 by nia.
  assert (2 * (n * A) < 2 ^ 51 * A) as HNA by nia.
  (* the mantissa cut to 53 digits lies in [K * J, (K + 1) * J - 2] *)
  assert (K * J ≤ q) as Hlow.
  { destruct (Z_le_gt_dec (K * J) q) as [?|Hgt]; [done|exfalso].
    assert (S * (q + 1) ≤ S * (K * J)) by (apply Z.mul_le_mono_nonneg_l; lia).
    assert (S * (K * J) = (K * A) * 2 ^ 53) by (rewrite <- (Z.mul_assoc K A), <- HJS; lia).
    lia. }
  assert (q + 1 < (K + 1) * J) as Hupp.
  { destruct (Z_lt_ge_dec (q + 1) ((K + 1) * J)) as [?|Hge]; [done|exfalso].
    assert (S * ((K + 1) * J) ≤ S * (q + 1)) by (apply Z.mul_le_mono_nonneg_l; lia).
    assert (S * ((K + 1) * J) = (K * A) * 2 ^ 53 + A * 2 ^ 53)
      by (rewrite <- (Z.mul_assoc K A), <- HJS; lia).
    lia. }
  symmetry. apply (Z.div_unique m1 J K (m1 - J * K)); lia.
Qed.

(** The two casts to [int] agree: [int] of a finite double is [int] of
    the number it denotes. *)
Lemma int_of_float_Q (s : bool) (m : positive) (e : Z) :
  int_of_float (S754_finite s m e) = Ok (int_of_Q (Q_of_float (S754_finite s m e))).
Proof.
  unfold int_of_float, int_of_Q, Q_of_float. f_equal.
  destruct e as [|p|p]; cbn [Qnum Qden inject_Z].
  - rewrite Z.quot_1_r. destruct s; cbn [cond_Zopp]; lia.
  - rewrite Z.quot_1_r. destruct s; cbn [cond_Zopp]; lia.
  - rewrite Pos2Z.inj_pow.
    assert (0 < 2 ^ Z.pos p) by (apply Z.pow_pos_nonneg; lia).
    destruct s; cbn [cond_Zopp].
    + change (- Z.pos m) with (- (Z.pos m)).
      rewrite Z.quot_opp_l by lia. rewrite Z.quot_div_nonneg by lia. done.
    + rewrite Z.quot_div_nonneg by lia. done.
Qed.

End FloatFacts.

(** ** What [process] builds from a molecule *)

Module Graph.
Import Torch Chem MyDataset NodeFeatures Sorting Edges WellFormed Adjacency.

Lemma size0_node_features uninit mol :
  size0 (node_features uninit mol) = GetNumAtoms mol.
Proof. rewrite node_features_rows. unfold size0, GetNumAtoms. by rewrite length_fmap. Qed.

Lemma sorted_triples_Permutation n mol :
  gather (triples mol) (argsort (wkey n <$> triples mol)) ≡ₚ triples mol.
Proof.
  apply gather_Permutation.
  rewrite <- (length_fmap (wkey n)). apply argsort_Permutation.
Qed.

Lemma graph_of_mol_with_attr uninit mol smiles label :
  graph_of_mol uninit true mol smiles label
  = let es := gather (triples mol) (argsort (wkey (GetNumAtoms mol) <$> triples mol)) in
    {| Data.x := node_features uninit mol; Data.edge_index := cols es;
       Data.y := [[label]]; Data.smiles := smiles;
       Data.edge_attr := Some (feats es) |}.
Proof.
  unfold graph_of_mol. rewrite edges_with_attr_triples, size0_node_features. done.
Qed.

Lemma sort_keys_cols n es :
  sort_keys n (cols es) = (λ e, sort_key n e.1.1 e.1.2) <$> es.
Proof.
  unfold sort_keys, cols. simpl.
  by rewrite zip_with_fmap_l, zip_with_fmap_r, zip_with_diag.
Qed.

Lemma wkey_sorted_triples mol :
  wf_mol mol →
  let n := GetNumAtoms mol in
  let es := gather (triples mol) (argsort (wkey n <$> triples mol)) in
  (λ e, sort_key n e.1.1 e.1.2) <$> es = wkey n <$> es.
Proof.
  intros Hwf n es. apply Forall_fmap_ext.
  unfold es. rewrite sorted_triples_Permutation.
  eapply Forall_impl; [by apply (wkey_triples n mol Hwf)|]. by intros e ->.
Qed.

Lemma wkey_gather_sorted n (es : list (Z * Z * Z)) :
  Sorted Z.le (wkey n <$> gather es (argsort (wkey n <$> es))).
Proof.
  rewrite <- gather_fmap.
  - apply argsort_Sorted.
  - rewrite <- (length_fmap (wkey n)). apply argsort_in_range.
Qed.

(** Sorting sorted edges again returns them. *)
Lemma sort_edges_idem n (es : list (Z * Z * Z)) :
  let es' := gather es (argsort (wkey n <$> es)) in
  sort_edges n (cols es') (feats es') = (cols es', feats es').
Proof.
  intros es'. rewrite sort_edges_triples.
  rewrite (argsort_sorted (wkey n <$> es')) by apply wkey_gather_sorted.
  by rewrite length_fmap, gather_seq.
Qed.

Lemma graph_x uninit create_edge_attr mol smiles label :
  Data.x (graph_of_mol uninit create_edge_attr mol smiles label)
  = atom_features <$> GetAtoms mol.
Proof.
  unfold graph_of_mol.
  destruct create_edge_attr; [destruct (edges_with_attr _ _)|]; simpl;
    apply node_features_rows.
Qed.

Lemma graph_x_shape uninit create_edge_attr mol smiles label :
  has_shape (Data.x (graph_of_mol uninit create_edge_attr mol smiles label))
    (GetNumAtoms mol) 5.
Proof.
  rewrite graph_x. split.
  - unfold GetNumAtoms. by rewrite length_fmap.
  - apply Forall_fmap, Forall_forall. by intros atom _.
Qed.

Lemma bind_nil {A B} (l : list A) : l ≫= (λ _, @nil B) = [].
Proof. induction l as [|a l IH]; [done|]. by rewrite bind_cons, IH. Qed.

Lemma nonzero_no_bonds mol :
  GetBonds mol = [] → nonzero (GetAdjacencyMatrix mol) = [].
Proof.
  intros Hbonds. rewrite nonzero_adjacency. unfold bonded. rewrite Hbonds. simpl.
  transitivity (seq 0 (GetNumAtoms mol) ≫= (λ _, @nil (list Z))); [|apply bind_nil].
  apply list_bind_ext; [|done]. intros i. apply bind_nil.
Qed.

(** A molecule without bonds has an edge index of two empty rows, in
    either mode. *)
Lemma graph_no_bonds uninit create_edge_attr mol smiles label :
  GetBonds mol = [] →
  Data.edge_index (graph_of_mol uninit create_edge_attr mol smiles label) = [[]; []].
Proof.
  intros Hbonds. destruct create_edge_attr.
  - rewrite graph_of_mol_with_attr. unfold triples. rewrite Hbonds. done.
  - unfold graph_of_mol, edges_from_adjacency, dense_to_sparse. simpl.
    by rewrite nonzero_no_bonds.
Qed.

Lemma single_atom_no_bonds mol :
  wf_mol mol → GetNumAtoms mol = 1%nat → GetBonds mol = [].
Proof.
  intros (Hbonds & _ & _) Hone. destruct (GetBonds mol) as [|bond bonds]; [done|].
  apply Forall_cons in Hbonds as [(Hb & He & Hne) _]. lia.
Qed.

End Graph.

(** ** The conversion of a table and the constructor *)

Module Process.
Import Torch Chem MyDataset.

Section process.
Variable MolFromSmiles : string → option Mol.
Variable uninit : nat → nat → Z.
Variable create_edge_attr : bool.

#[local] Abbreviation process_row := (process_row MolFromSmiles uninit create_edge_attr).
#[local] Abbreviation record_of := (record_of MolFromSmiles uninit create_edge_attr).
#[local] Abbreviation process := (process MolFromSmiles uninit create_edge_attr).
#[local] Abbreviation __init__ := (__init__ MolFromSmiles uninit create_edge_attr).

Lemma process_row_record data_list idx row data :
  record_of row = Some data →
  process_row data_list (idx, row) = Ok (<[idx := Some data]> data_list).
Proof.
  unfold MyDataset.record_of, MyDataset.process_row.
  destruct (MolFromSmiles (Row.smiles row)) as [mol|]; simpl; [|discriminate].
  by intros [= <-].
Qed.

(** When every row parses, the loop fills the slots of the rows in order. *)
Lemma for_each_rows_ok df ds :
  Forall2 (λ row data, record_of row = Some data) df ds →
  ∀ k data_list, (k + length df ≤ length data_list)%nat →
  for_each process_row (zip (seq k (length df)) df) data_list
  = Ok (take k data_list ++ (Some <$> ds) ++ drop (k + length df) data_list).
Proof.
  induction 1 as [|row data df ds Hrow _ IH]; intros k data_list Hlen.
  - simpl. by rewrite Nat.add_0_r, take_drop.
  - cbn [length seq zip_with for_each] in *.
    rewrite (process_row_record _ _ _ _ Hrow). cbn [mbind result_bind].
    rewrite IH by (rewrite length_insert; lia).
    rewrite (take_S_r _ _ (Some data)) by (apply list_lookup_insert_eq; lia).
    rewrite take_insert_ge, drop_insert_lt by lia.
    rewrite <- app_assoc.
    replace (k + S (length df))%nat with (S k + length df)%nat by lia. done.
Qed.

(** A row that does not parse ends the loop with an exception, wherever it
    stands. *)
Lemma for_each_rows_fail df :
  Exists (λ row, MolFromSmiles (Row.smiles row) = None) df →
  ∀ k data_list,
  for_each process_row (zip (seq k (length df)) df) data_list = Raise AttributeError.
Proof.
  induction df as [|row df IH]; intros Hex k data_list; [by apply Exists_nil in Hex|].
  cbn [length seq zip_with for_each].
  change (process_row data_list (k, row))
    with (match MolFromSmiles (Row.smiles row) with
          | None => Raise AttributeError
          | Some mol =>
              Ok (<[k := Some (graph_of_mol uninit create_edge_attr mol
                                 (Row.smiles row) (Row.labels row))]> data_list)
          end).
  destruct (MolFromSmiles (Row.smiles row)) as [mol|] eqn:Hmol; [|done].
  cbn [mbind result_bind]. apply IH.
  apply Exists_cons in Hex as [Hex | Hex]; [congruence|done].
Qed.

Lemma record_of_None row :
  record_of row = None ↔ MolFromSmiles (Row.smiles row) = None.
Proof.
  unfold MyDataset.record_of. by destruct (MolFromSmiles (Row.smiles row)).
Qed.

Lemma collate_records (ds : list Data) : ds ≠ [] → collate (Some <$> ds) = Ok ds.
Proof.
  intros Hne. unfold collate. destruct ds as [|d ds]; [done|].
  rewrite fmap_cons, <- fmap_cons, mapM_fmap_Some by done. done.
Qed.

Lemma process_ok root (fs : gmap string file) df ds :
  fs !! raw_paths0 root = Some (CsvFile df) → df ≠ [] →
  mapM record_of df = Some ds →
  process root fs = (Ok (), <[processed_paths0 root := PtFile ds]> fs).
Proof.
  intros Hraw Hne Hds. pose proof (length_mapM _ _ _ Hds) as Hlen.
  apply mapM_Some_1 in Hds.
  unfold MyDataset.process, mbind, M_bind, read_csv, lift. rewrite Hraw.
  unfold enumerate.
  rewrite (for_each_rows_ok df ds Hds) by (rewrite length_replicate; lia).
  rewrite drop_ge by (rewrite length_replicate; lia).
  rewrite take_0, app_nil_r. cbn [app].
  rewrite collate_records; [done|]. intros ->. by destruct df.
Qed.

Lemma process_fail root (fs : gmap string file) df :
  fs !! raw_paths0 root = Some (CsvFile df) →
  Exists (λ row, MolFromSmiles (Row.smiles row) = None) df →
  process root fs = (Raise AttributeError, fs).
Proof.
  intros Hraw Hex.
  unfold MyDataset.process, mbind, M_bind, read_csv, lift. rewrite Hraw.
  unfold enumerate. by rewrite (for_each_rows_fail df Hex).
Qed.

(** An exception in [process] leaves every file as it was. *)
Lemma process_raise root (fs fs' : gmap string file) e :
  process root fs = (Raise e, fs') → fs' = fs.
Proof.
  unfold MyDataset.process, mbind, M_bind, read_csv, lift, torch_save.
  destruct (fs !! raw_paths0 root) as [[df|c]|]; [|by intros [= _ <-]..].
  destruct (for_each _ _ _) as [data_list|e1]; [|by intros [= _ <-]].
  destruct (collate data_list) as [c|e2]; [discriminate|by intros [= _ <-]].
Qed.

Lemma process_return root (fs fs' : gmap string file) :
  process root fs = (Ok (), fs') →
  ∃ df collection,
    fs !! raw_paths0 root = Some (CsvFile df)
    ∧ mapM record_of df = Some collection
    ∧ fs' = <[processed_paths0 root := PtFile collection]> fs.
Proof.
  intros Hok.
  destruct (fs !! raw_paths0 root) as [[df|c]|] eqn:Hraw.
  - exists df. destruct (mapM record_of df) as [ds|] eqn:Hds.
    + exists ds. split; [done|]. split; [done|].
      destruct df as [|row df].
      * unfold MyDataset.process, mbind, M_bind, read_csv, lift in Hok.
        rewrite Hraw in Hok. discriminate.
      * rewrite (process_ok root fs _ ds Hraw) in Hok by done. congruence.
    + apply mapM_None_1 in Hds.
      rewrite (process_fail root fs df Hraw) in Hok; [discriminate|].
      eapply Exists_impl; [exact Hds|]. intros row. apply record_of_None.
  - unfold MyDataset.process, mbind, M_bind, read_csv in Hok.
    rewrite Hraw in Hok. discriminate.
  - unfold MyDataset.process, mbind, M_bind, read_csv in Hok.
    rewrite Hraw in Hok. discriminate.
Qed.

End process.

Lemma raw_processed_paths root : raw_paths0 root ≠ processed_paths0 root.
Proof.
  unfold raw_paths0, processed_paths0, raw_dir, processed_dir.
  induction root as [|a root IH]; [discriminate|].
  simpl. intros [= Heq]. by apply IH.
Qed.

End Process.

(** ** The model at work *)

Module Runs.
Import Torch Chem MyDataset Python Examples.

(** Ethanol with edge features: the bonds 0-1 and 1-2, both ways, sorted. *)
Example ethanol_with_attr :
  graph_of_mol zeros true ethanol "CCO" 1
  = {| Data.x := [[6; 1; 0; 4; 0]; [6; 2; 0; 4; 0]; [8; 1; 0; 4; 0]];
       Data.edge_index := [[0; 1; 1; 2]; [1; 0; 2; 1]];
       Data.y := [[1]];
       Data.smiles := "CCO";
       Data.edge_attr := Some [[1]; [1]; [1]; [1]] |}.
Proof. reflexivity. Qed.

(** The bonds of a molecule need not come in the order of their atoms;
    the sort puts the entries in order. *)
Example unordered_bonds :
  edges_with_attr [[]; []; []]
    {| GetAtoms := [atom 6 1; atom 6 2; atom 8 1];
       GetBonds := [single 2 1; aromatic 1 0] |}
  = ([[0; 1; 1; 2]; [1; 0; 2; 1]], [[4]; [4]; [1]; [1]]).
Proof. reflexivity. Qed.

Example ethanol_from_adjacency :
  Data.edge_index (graph_of_mol zeros false ethanol "CCO" 1)
  = [[0; 1; 1; 2]; [1; 0; 2; 1]].
Proof. reflexivity. Qed.

Example first_run :
  (__init__ parse zeros false "tox21" fresh).1
  = Ok [ graph_of_mol zeros false ethanol "CCO" 1;
         graph_of_mol zeros false water "O" 0 ].
Proof. vm_compute. reflexivity. Qed.

(** The 7831 molecules of Tox21 are split at 6264. *)
Example split_point_tox21 : split_point 7831 = Ok 6264.
Proof. vm_compute. reflexivity. Qed.

(** Doubles do show beyond 2^50 records: there the product rounds up
    across an integer. *)
Example split_point_rounds_up :
  split_point 1772898019047246 = Ok 1418318415237797
  ∧ 4 * 1772898019047246 / 5 = 1418318415237796.
Proof. split; vm_compute; reflexivity. Qed.

End Runs.

(** ** Properties of the graph of one molecule *)

Module Claims.
Import Torch Chem MyDataset NodeFeatures Sorting Edges WellFormed Adjacency Graph.
Import Process Python FloatFacts Examples.

(** C1. When the parser returns a molecule for the structure string of a
    row, the pass of [process] over that row stores a record whose
    node-feature table has one row per atom and 5 columns; row [i] holds,
    in this order, the atomic number, the degree, the formal charge, the
    hybridization code and the aromaticity flag (0 or 1) of atom [i].  No
    entry of the uninitialised table survives. *)
Theorem process_row_node_features
    (MolFromSmiles : string → option Mol) (uninit : nat → nat → Z)
    (create_edge_attr : bool) (data_list : list (option Data))
    (idx : nat) (row : Row) (mol : Mol) :
  MolFromSmiles (Row.smiles row) = Some mol →
  ∃ data,
    process_row MolFromSmiles uninit create_edge_attr data_list (idx, row)
    = Ok (<[idx := Some data]> data_list)
    ∧ has_shape (Data.x data) (GetNumAtoms mol) 5
    ∧ Data.x data
      = (λ atom, [ Atom.GetAtomicNum atom; Atom.GetDegree atom; Atom.GetFormalCharge atom;
                   Atom.GetHybridization atom; Z.b2z (Atom.GetIsAromatic atom) ])
          <$> GetAtoms mol.
Proof.
  intros Hmol. eexists. unfold process_row. rewrite Hmol. split; [reflexivity|].
  assert (Data.x (graph_of_mol uninit create_edge_attr mol (Row.smiles row) (Row.labels row))
          = atom_features <$> GetAtoms mol) as ->.
  { unfold graph_of_mol.
    destruct create_edge_attr; [destruct (edges_with_attr _ _)|]; simpl;
      apply node_features_rows. }
  split; [|done]. split.
  - unfold GetNumAtoms. by rewrite length_fmap.
  - apply Forall_fmap, Forall_forall. by intros atom _.
Qed.

Lemma process_row_node_features_witness :
  ∃ data,
    process_row parse zeros true [None; None] (0%nat, {| Row.smiles := "CCO"; Row.labels := 1 |})
    = Ok (<[0%nat := Some data]> [None; None])
    ∧ has_shape (Data.x data) 3 5
    ∧ Data.x data = [[6; 1; 0; 4; 0]; [6; 2; 0; 4; 0]; [8; 1; 0; 4; 0]].
Proof.
  exact (process_row_node_features parse zeros true [None; None] 0
           {| Row.smiles := "CCO"; Row.labels := 1 |} ethanol eq_refl).
Defined.

(** C2. In edge-attribute mode a molecule with [B] bonds gets an edge
    index of two rows of [2 * B] entries and [2 * B] rows of one edge
    feature; the entries, each with its feature, are those of the bonds:
    for every bond the pair (begin, end) and the pair (end, begin), both
    with the bond's feature. *)
Theorem edge_entries_of_bonds (uninit : nat → nat → Z) (mol : Mol)
    (smiles : string) (label : Z) :
  let data := graph_of_mol uninit true mol smiles label in
  ∃ edge_attr',
    Data.edge_attr data = Some edge_attr'
    ∧ has_shape (Data.edge_index data) 2 (2 * GetNumBonds mol)
    ∧ has_shape edge_attr' (2 * GetNumBonds mol) 1
    ∧ entries (Data.edge_index data) edge_attr' ≡ₚ GetBonds mol ≫= bond_entries.
Proof.
  rewrite graph_of_mol_with_attr. cbv zeta. cbn [Data.edge_attr Data.edge_index].
  eexists. split; [reflexivity|].
  pose proof (sorted_triples_Permutation (GetNumAtoms mol) mol) as Hperm.
  pose proof (Permutation_length Hperm) as Hlen. rewrite length_triples in Hlen.
  repeat split.
  - unfold cols. repeat constructor; by rewrite length_fmap.
  - unfold feats. by rewrite length_fmap.
  - unfold feats. apply Forall_fmap, Forall_forall. by intros e _.
  - by rewrite entries_cols, Hperm, triples_entries.
Qed.

(** C3. In edge-attribute mode, for a molecule that satisfies the
    toolkit's invariants, the composite keys source * node count +
    destination along the emitted edge index are non-decreasing; sorting
    the emitted edges again, as [process] sorts them, changes neither the
    edge index nor the edge features, and the same holds for every
    permutation an implementation of [argsort] may return. *)
Theorem edges_sorted_and_resort_stable (uninit : nat → nat → Z) (mol : Mol)
    (smiles : string) (label : Z) :
  wf_mol mol →
  let data := graph_of_mol uninit true mol smiles label in
  let n := size0 (Data.x data) in
  ∃ edge_attr',
    Data.edge_attr data = Some edge_attr'
    ∧ Sorted Z.le (sort_keys n (Data.edge_index data))
    ∧ sort_edges n (Data.edge_index data) edge_attr' = (Data.edge_index data, edge_attr')
    ∧ ∀ perm,
        is_argsort (mul_add (Data.edge_index data !!! 0%nat) (Z.of_nat n)
                            (Data.edge_index data !!! 1%nat)) perm →
        gather_cols (Data.edge_index data) perm = Data.edge_index data
        ∧ gather edge_attr' perm = edge_attr'.
Proof.
  intros Hwf. rewrite graph_of_mol_with_attr. cbv zeta. cbn [Data.edge_attr Data.edge_index Data.x].
  rewrite size0_node_features.
  pose proof (wkey_sorted_triples mol Hwf) as Hkeys. cbv zeta in Hkeys.
  pose proof (wkey_gather_sorted (GetNumAtoms mol) (triples mol)) as Hsorted.
  pose proof (NoDup_keys (GetNumAtoms mol) mol Hwf eq_refl) as Hnd.
  rewrite <- (sorted_triples_Permutation (GetNumAtoms mol) mol) in Hnd.
  revert Hkeys Hsorted Hnd.
  generalize (gather (triples mol) (argsort (wkey (GetNumAtoms mol) <$> triples mol))).
  intros es Hkeys Hsorted Hnd.
  assert (∀ perm, is_argsort (wkey (GetNumAtoms mol) <$> es) perm →
                  perm = seq 0 (length es)) as Huniq.
  { intros perm Hperm. rewrite (is_argsort_unique _ _ Hnd Hperm).
    rewrite argsort_sorted by done. by rewrite length_fmap. }
  eexists. split; [reflexivity|]. split; [|split].
  - by rewrite sort_keys_cols, Hkeys.
  - rewrite sort_edges_triples, (Huniq _ (argsort_is_argsort _)).
    by rewrite gather_seq.
  - intros perm Hperm. rewrite mul_add_cols in Hperm.
    rewrite (Huniq _ Hperm).
    rewrite gather_cols_cols by (apply Forall_seq; lia).
    unfold feats. rewrite gather_fmap by (apply Forall_seq; lia).
    by rewrite gather_seq.
Qed.

Lemma edges_sorted_and_resort_stable_witness :
  wf_mol ethanol
  ∧ let data := graph_of_mol zeros true ethanol "CCO" 1 in
    let n := size0 (Data.x data) in
    ∃ edge_attr',
      Data.edge_attr data = Some edge_attr'
      ∧ Sorted Z.le (sort_keys n (Data.edge_index data))
      ∧ sort_edges n (Data.edge_index data) edge_attr' = (Data.edge_index data, edge_attr')
      ∧ ∀ perm,
          is_argsort (mul_add (Data.edge_index data !!! 0%nat) (Z.of_nat n)
                              (Data.edge_index data !!! 1%nat)) perm →
          gather_cols (Data.edge_index data) perm = Data.edge_index data
          ∧ gather edge_attr' perm = edge_attr'.
Proof.
  split.
  - compute_done.
  - apply (edges_sorted_and_resort_stable zeros ethanol "CCO" 1).
    compute_done.
Defined.

Lemma int_of_Q_integer (d : Q) (k : Z) : (d == inject_Z k)%Q → int_of_Q d = k.
Proof.
  unfold Qeq, int_of_Q. simpl. intros Heq.
  rewrite Z.mul_1_r in Heq. rewrite Heq. apply Z.quot_mul. lia.
Qed.

(** C4. The edge feature of an aromatic bond is 4; that of any other bond
    is its bond type cast to an integer, so a bond of order [k] gets [k];
    and the code of an aromatic bond differs from the codes 1, 2 and 3 of
    single, double and triple bonds. *)
Theorem bond_order_code (bond bond' : Bond) :
  (Bond.GetIsAromatic bond = true → bond_attr bond = 4)
  ∧ (Bond.GetIsAromatic bond = false →
     bond_attr bond = int_of_Q (Bond.GetBondTypeAsDouble bond))
  ∧ (∀ k, Bond.GetIsAromatic bond = false →
          (Bond.GetBondTypeAsDouble bond == inject_Z k)%Q → bond_attr bond = k)
  ∧ (Bond.GetIsAromatic bond = true → Bond.GetIsAromatic bond' = false →
     (∃ k, 1 ≤ k ≤ 3 ∧ (Bond.GetBondTypeAsDouble bond' == inject_Z k)%Q) →
     bond_attr bond ≠ bond_attr bond').
Proof.
  unfold bond_attr. repeat split.
  - by intros ->.
  - by intros ->.
  - intros k -> Hk. by apply int_of_Q_integer.
  - intros -> -> (k & Hk & Heq). rewrite (int_of_Q_integer _ _ Heq). lia.
Qed.

Lemma bond_order_code_witness :
  bond_attr (aromatic 0 1) = 4
  ∧ bond_attr (single 0 1) = 1
  ∧ bond_attr (aromatic 0 1) ≠ bond_attr (single 0 1).
Proof.
  destruct (bond_order_code (aromatic 0 1) (single 0 1)) as (H4 & _ & _ & Hne).
  destruct (bond_order_code (single 0 1) (single 0 1)) as (_ & _ & Hk & _).
  split; [exact (H4 eq_refl)|]. split; [exact (Hk 1 eq_refl eq_refl)|].
  apply (Hne eq_refl eq_refl). exists 1. split; [lia|reflexivity].
Defined.

Lemma elem_of_sorted_pairs mol p :
  wf_mol mol →
  p ∈ pair_of <$> triples mol ↔ p ∈ nonzero (GetAdjacencyMatrix mol).
Proof.
  intros (Hbonds & _ & _). rewrite Forall_forall in Hbonds.
  unfold triples. rewrite elem_of_pairs, elem_of_nonzero_adjacency. split.
  - intros (bond & Hbond & Hp). destruct (Hbonds _ Hbond) as (Hb & He & _).
    destruct Hp as [-> | ->].
    + exists (Bond.GetBeginAtomIdx bond), (Bond.GetEndAtomIdx bond).
      split; [done|]. split; [done|]. split; [|done].
      apply bonded_joins. exists bond. split; [done|]. by left.
    + exists (Bond.GetEndAtomIdx bond), (Bond.GetBeginAtomIdx bond).
      split; [done|]. split; [done|]. split; [|done].
      apply bonded_joins. exists bond. split; [done|]. by right.
  - intros (i & j & _ & _ & Hb & ->).
    apply bonded_joins in Hb as (bond & Hbond & [[<- <-] | [<- <-]]);
      exists bond; (split; [done|]); [by left|by right].
Qed.

(** C10. For a molecule that satisfies the toolkit's invariants the two
    modes build the same edge index: both directed pairs of every bond,
    sorted by the composite key, is what the sparse form of the dense
    adjacency matrix lists. *)
Theorem edge_modes_agree (uninit : nat → nat → Z) (mol : Mol)
    (smiles : string) (label : Z) :
  wf_mol mol →
  Data.edge_index (graph_of_mol uninit true mol smiles label)
  = Data.edge_index (graph_of_mol uninit false mol smiles label).
Proof.
  intros Hwf. rewrite graph_of_mol_with_attr. cbv zeta.
  unfold graph_of_mol, edges_from_adjacency, dense_to_sparse. cbn [Data.edge_index fst].
  rewrite <- t_pairs. f_equal.
  pose proof (sorted_triples_Permutation (GetNumAtoms mol) mol) as Hperm.
  apply (StronglySorted_unique_strong (λ p q, pair_key (GetNumAtoms mol) p < pair_key (GetNumAtoms mol) q)).
  - intros p q _ _ Hpq Hqp. lia.
  - apply (StronglySorted_fmap_inv Z.lt (pair_key (GetNumAtoms mol))).
    rewrite <- list_fmap_compose.
    change (pair_key (GetNumAtoms mol) ∘ pair_of)
      with (λ e : Z * Z * Z, sort_key (GetNumAtoms mol) e.1.1 e.1.2).
    rewrite (wkey_sorted_triples mol Hwf).
    apply StronglySorted_le_lt.
    + rewrite Hperm. by apply NoDup_keys.
    + apply Sorted_StronglySorted; [apply _|]. apply wkey_gather_sorted.
  - apply nonzero_adjacency_sorted.
  - apply NoDup_Permutation.
    + rewrite Hperm. by apply NoDup_pairs.
    + eapply StronglySorted_irrefl_NoDup; [|apply nonzero_adjacency_sorted].
      intros p. simpl. lia.
    + intros p. rewrite Hperm. by apply elem_of_sorted_pairs.
Qed.

Lemma edge_modes_agree_witness :
  wf_mol ethanol
  ∧ Data.edge_index (graph_of_mol zeros true ethanol "CCO" 1)
    = Data.edge_index (graph_of_mol zeros false ethanol "CCO" 1).
Proof.
  split.
  - compute_done.
  - apply (edge_modes_agree zeros ethanol "CCO" 1).
    compute_done.
Defined.

(** ** Properties of a run *)

(** C5, as the spec states it, fails: with the processed file in place but
    neither the raw table nor [data.csv] to copy it from, the constructor
    raises in [download] before it reads the cache. *)
Lemma cached_load_counterexample :
  ¬ (∀ MolFromSmiles uninit create_edge_attr root (fs : gmap string file) collection,
       fs !! processed_paths0 root = Some (PtFile collection) →
       ∃ fs', __init__ MolFromSmiles uninit create_edge_attr root fs
              = (Ok collection, fs')).
Proof.
  intros Hclaim.
  destruct (Hclaim parse zeros true "tox21" cache_only cached eq_refl) as [fs' Hrun].
  vm_compute in Hrun. discriminate.
Qed.

(** C5, amended.  When the processed file exists and the raw table is in
    place (in the raw directory, or as [data.csv] for [download] to copy),
    the constructor returns the collection the processed file holds,
    whatever the parser, the mode and the table are, and leaves the
    processed file as it is; constructing the dataset again returns the
    same collection. *)
Theorem cached_collection_loaded (root : string) (fs : gmap string file)
    (collection : list Data) :
  fs !! processed_paths0 root = Some (PtFile collection) →
  is_Some (fs !! raw_paths0 root) ∨ is_Some (fs !! "data.csv") →
  ∃ fs',
    (∀ MolFromSmiles uninit create_edge_attr,
       __init__ MolFromSmiles uninit create_edge_attr root fs = (Ok collection, fs'))
    ∧ fs' !! processed_paths0 root = Some (PtFile collection)
    ∧ (∀ MolFromSmiles uninit create_edge_attr,
       __init__ MolFromSmiles uninit create_edge_attr root fs' = (Ok collection, fs')).
Proof.
  intros Hcache Hraw.
  assert (∀ fs0 : gmap string file,
            fs0 !! processed_paths0 root = Some (PtFile collection) →
            is_Some (fs0 !! raw_paths0 root) →
            ∀ MolFromSmiles uninit create_edge_attr,
              __init__ MolFromSmiles uninit create_edge_attr root fs0
              = (Ok collection, fs0)) as Hload.
  { intros fs0 Hc Hr ? ? ?.
    unfold __init__, _download, _process, mbind, M_bind, files_exist, torch_load.
    rewrite (bool_decide_eq_true_2 _ Hr). cbn [mret M_ret].
    rewrite bool_decide_eq_true_2 by (by rewrite Hc). cbn [mret M_ret].
    by rewrite Hc. }
  destruct (fs !! raw_paths0 root) as [f|] eqn:Hr.
  - exists fs. split; [|split]; [|done|]; apply Hload; by rewrite ?Hr.
  - destruct Hraw as [[? [=]] | [f Hf]].
    assert ((<[raw_paths0 root := f]> fs) !! processed_paths0 root
            = Some (PtFile collection)) as Hc'.
    { rewrite lookup_insert_ne by apply raw_processed_paths. done. }
    exists (<[raw_paths0 root := f]> fs). split; [|split; [done|]].
    + intros ? ? ?.
      unfold __init__, _download, _process, download, shutil_copy,
        mbind, M_bind, files_exist, torch_load.
      rewrite bool_decide_eq_false_2 by (rewrite Hr; by intros [? ?]).
      rewrite Hf. fold (raw_paths0 root).
      rewrite bool_decide_eq_true_2 by (by rewrite Hc'). cbn [mret M_ret].
      by rewrite Hc'.
    + apply Hload; [done|]. by rewrite lookup_insert_eq.
Qed.

Lemma cached_collection_loaded_witness :
  ∃ fs',
    (∀ MolFromSmiles uninit create_edge_attr,
       __init__ MolFromSmiles uninit create_edge_attr "tox21" cache_and_table
       = (Ok cached, fs'))
    ∧ fs' !! processed_paths0 "tox21" = Some (PtFile cached)
    ∧ (∀ MolFromSmiles uninit create_edge_attr,
       __init__ MolFromSmiles uninit create_edge_attr "tox21" fs' = (Ok cached, fs')).
Proof.
  apply (cached_collection_loaded "tox21" cache_and_table cached).
  - compute_done.
  - right. compute_done.
Defined.

(** C6. [process] is all-or-nothing: when it raises, for whatever reason
    and at whatever row, every file is as it was before, so no processed
    file has been written; when it returns, it has made one write, of the
    records of all the rows of the table, to the processed path. *)
Theorem process_all_or_nothing (MolFromSmiles : string → option Mol)
    (uninit : nat → nat → Z) (create_edge_attr : bool) (root : string)
    (fs fs' : gmap string file) (r : result unit) :
  process MolFromSmiles uninit create_edge_attr root fs = (r, fs') →
  match r with
  | Raise _ => fs' = fs
  | Ok _ =>
      ∃ df collection,
        fs !! raw_paths0 root = Some (CsvFile df)
        ∧ mapM (record_of MolFromSmiles uninit create_edge_attr) df = Some collection
        ∧ fs' = <[processed_paths0 root := PtFile collection]> fs
  end.
Proof.
  destruct r as [[]|e]; intros Hrun.
  - by apply process_return.
  - by eapply process_raise.
Qed.

Lemma process_all_or_nothing_witness :
  (process parse zeros true "tox21" bad_raw).1 = Raise AttributeError
  ∧ (process parse zeros true "tox21" bad_raw).2 = bad_raw.
Proof.
  split; [vm_compute; reflexivity|].
  apply (process_all_or_nothing parse zeros true "tox21" bad_raw
           (process parse zeros true "tox21" bad_raw).2 (Raise AttributeError)).
  vm_compute. reflexivity.
Defined.

(** C7. When some row of the table has a structure string the parser
    rejects, [process] raises (the attribute error of reading the atom
    count of [None]) and so does the constructor that ran it; no record is
    returned and no file is written, whatever the rows before and after
    the rejected one are. *)
Theorem unparseable_row_aborts (MolFromSmiles : string → option Mol)
    (uninit : nat → nat → Z) (create_edge_attr : bool) (root : string)
    (fs : gmap string file) (df : list Row) :
  fs !! raw_paths0 root = Some (CsvFile df) →
  fs !! processed_paths0 root = None →
  Exists (λ row, MolFromSmiles (Row.smiles row) = None) df →
  process MolFromSmiles uninit create_edge_attr root fs = (Raise AttributeError, fs)
  ∧ __init__ MolFromSmiles uninit create_edge_attr root fs = (Raise AttributeError, fs).
Proof.
  intros Hraw Hcache Hbad.
  pose proof (process_fail MolFromSmiles uninit create_edge_attr root fs df Hraw Hbad)
    as Hrun.
  split; [done|].
  unfold __init__, _download, _process, mbind, M_bind, files_exist.
  rewrite bool_decide_eq_true_2 by (by rewrite Hraw). cbn [mret M_ret].
  rewrite bool_decide_eq_false_2 by (rewrite Hcache; by intros [? ?]).
  by rewrite Hrun.
Qed.

Lemma unparseable_row_aborts_witness :
  process parse zeros true "tox21" bad_raw = (Raise AttributeError, bad_raw)
  ∧ __init__ parse zeros true "tox21" bad_raw = (Raise AttributeError, bad_raw).
Proof.
  apply (unparseable_row_aborts parse zeros true "tox21" bad_raw bad_table).
  - compute_done.
  - compute_done.
  - apply Exists_cons_tl, Exists_cons_hd. compute_done.
Defined.

(** C8. On a first run over the table of [CCO] with label 1 and [O] with
    label 0, with a parser that reads the first as a molecule of 3 atoms
    and the second as a molecule of 1 atom, the constructor returns a
    collection of 2 records: the node-feature table of record 0 has shape
    [3, 5], that of record 1 has shape [1, 5], and the edge index of
    record 1 has no entry. *)
Theorem ethanol_water_scenario (MolFromSmiles : string → option Mol)
    (uninit : nat → nat → Z) (create_edge_attr : bool) (root : string)
    (fs : gmap string file) (mol0 mol1 : Mol) :
  MolFromSmiles "CCO" = Some mol0 → GetNumAtoms mol0 = 3%nat →
  MolFromSmiles "O" = Some mol1 → GetNumAtoms mol1 = 1%nat → wf_mol mol1 →
  fs !! "data.csv" = Some (CsvFile table) →
  fs !! raw_paths0 root = None →
  fs !! processed_paths0 root = None →
  ∃ data0 data1 fs',
    __init__ MolFromSmiles uninit create_edge_attr root fs = (Ok [data0; data1], fs')
    ∧ has_shape (Data.x data0) 3 5 ∧ Data.y data0 = [[1]]
    ∧ has_shape (Data.x data1) 1 5 ∧ Data.y data1 = [[0]]
    ∧ has_shape (Data.edge_index data1) 2 0 ∧ numel (Data.edge_index data1) = 0%nat.
Proof.
  intros Hmol0 Hn0 Hmol1 Hn1 Hwf Hcsv Hraw Hcache.
  exists (graph_of_mol uninit create_edge_attr mol0 "CCO" 1),
         (graph_of_mol uninit create_edge_attr mol1 "O" 0).
  eexists. split; [|split; [|split; [|split; [|split]]]].
  - unfold __init__, _download, _process, download, shutil_copy,
      mbind at 1 2 3 4, M_bind, files_exist, torch_load.
    rewrite bool_decide_eq_false_2 by (rewrite Hraw; by intros [? ?]).
    rewrite Hcsv. fold (raw_paths0 root).
    rewrite bool_decide_eq_false_2
      by (rewrite lookup_insert_ne, Hcache by apply raw_processed_paths; by intros [? ?]).
    erewrite process_ok; [|apply lookup_insert_eq|done|].
    + rewrite lookup_insert_eq. reflexivity.
    + unfold table, record_of. simpl. rewrite Hmol0, Hmol1. reflexivity.
  - pose proof (graph_x_shape uninit create_edge_attr mol0 "CCO" 1) as Hshape.
    by rewrite Hn0 in Hshape.
  - unfold graph_of_mol. by destruct create_edge_attr; [destruct (edges_with_attr _ _)|].
  - pose proof (graph_x_shape uninit create_edge_attr mol1 "O" 0) as Hshape.
    by rewrite Hn1 in Hshape.
  - unfold graph_of_mol. by destruct create_edge_attr; [destruct (edges_with_attr _ _)|].
  - rewrite graph_no_bonds by (by apply single_atom_no_bonds).
    split; [split; [done|by repeat constructor]|done].
Qed.

Lemma ethanol_water_scenario_witness :
  ∃ data0 data1 fs',
    __init__ parse zeros true "tox21" fresh = (Ok [data0; data1], fs')
    ∧ has_shape (Data.x data0) 3 5 ∧ Data.y data0 = [[1]]
    ∧ has_shape (Data.x data1) 1 5 ∧ Data.y data1 = [[0]]
    ∧ has_shape (Data.edge_index data1) 2 0 ∧ numel (Data.edge_index data1) = 0%nat.
Proof.
  apply (ethanol_water_scenario parse zeros true "tox21" fresh ethanol water);
    compute_done.
Defined.

(** ** The split *)

Lemma slice_index_nat {A} (l : list A) (k : nat) : slice_index l (Z.of_nat k) = k.
Proof. unfold slice_index. rewrite decide_False by lia. apply Nat2Z.id. Qed.

(** C9. For a dataset of [n] records ([n] below 2^50, as any list in
    memory is), the split computes the cut [int(n * .8)] in doubles as the
    integer part of 0.8 n: the training set is the first [4 n / 5] records
    of the sequence, the test set the remaining [n - 4 n / 5], and the two
    together are the sequence. *)
Theorem train_test_split_partition {A : Type} (dataset : list A) :
  Z.of_nat (length dataset) < 2 ^ 50 →
  let n := length dataset in
  let k := (4 * n / 5)%nat in
  ∃ train_set test_set,
    train_test_split dataset = Ok (train_set, test_set)
    ∧ train_set = take k dataset
    ∧ test_set = drop k dataset
    ∧ length train_set = k
    ∧ length test_set = (n - k)%nat
    ∧ train_set ++ test_set = dataset.
Proof.
  intros Hn n k.
  assert (k ≤ n)%nat as Hk.
  { unfold k. apply Nat.Div0.div_le_upper_bound. lia. }
  assert (split_point (Z.of_nat n) = Ok (Z.of_nat k)) as Hcut.
  { rewrite split_point_value by (unfold n; lia).
    unfold k. by rewrite Nat2Z.inj_div, Nat2Z.inj_mul. }
  exists (take k dataset), (drop k dataset). split; [|split; [done|split; [done|]]].
  - unfold train_test_split. fold n. rewrite Hcut.
    cbn [mbind result_bind]. unfold slice_to, slice_from.
    by rewrite slice_index_nat.
  - split; [|split].
    + rewrite length_take. fold n. lia.
    + by rewrite length_drop.
    + apply take_drop.
Qed.

Lemma train_test_split_partition_witness :
  Z.of_nat (length [10; 20; 30; 40; 50; 60; 70]%nat) < 2 ^ 50
  ∧ ∃ train_set test_set,
      train_test_split [10; 20; 30; 40; 50; 60; 70]%nat = Ok (train_set, test_set)
      ∧ train_set = [10; 20; 30; 40; 50]%nat
      ∧ test_set = [60; 70]%nat
      ∧ length train_set = 5%nat
      ∧ length test_set = 2%nat
      ∧ train_set ++ test_set = [10; 20; 30; 40; 50; 60; 70]%nat.
Proof.
  split; [compute_done|].
  apply (train_test_split_partition [10; 20; 30; 40; 50; 60; 70]%nat).
  compute_done.
Defined.

End Claims.

(** ** More on the constructor *)

Module RunFacts.
Import Torch Chem MyDataset Process.




Section constructor.
Variable MolFromSmiles : string → option Mol.
Variable uninit : nat → nat → Z.
Variable create_edge_attr : bool.

#[local] Abbreviation record_of := (record_of MolFromSmiles uninit create_edge_attr).
#[local] Abbreviation process := (process MolFromSmiles uninit create_edge_attr).
#[local] Abbreviation __init__ := (__init__ MolFromSmiles uninit create_edge_attr).

(** With both files in place the constructor only loads. *)
Lemma init_load root (fs : gmap string file) :
  is_Some (fs !! raw_paths0 root) →
  is_Some (fs !! processed_paths0 root) →
  __init__ root fs = torch_load (processed_paths0 root) fs.
Proof.
  intros Hraw Hcache.
  unfold MyDataset.__init__, _download, _process, mbind, M_bind, files_exist.
  rewrite (bool_decide_eq_true_2 _ Hraw). cbn [mret M_ret].
  by rewrite (bool_decide_eq_true_2 _ Hcache).
Qed.

Lemma init_cached root (fs : gmap string file) collection :
  is_Some (fs !! raw_paths0 root) →
  fs !! processed_paths0 root = Some (PtFile collection) →
  __init__ root fs = (Ok collection, fs).
Proof.
  intros Hraw Hcache. rewrite init_load by (by rewrite ?Hcache).
  unfold torch_load. by rewrite Hcache.
Qed.

(** With the raw file in place and no processed file, the constructor
    runs [process] and loads what it wrote. *)
Lemma init_process root (fs : gmap string file) :
  is_Some (fs !! raw_paths0 root) →
  fs !! processed_paths0 root = None →
  __init__ root fs
  = match process root fs with
    | (Ok _, fs') => torch_load (processed_paths0 root) fs'
    | (Raise e, fs') => (Raise e, fs')
    end.
Proof.
  intros Hraw Hcache.
  unfold MyDataset.__init__, _download, _process, mbind, M_bind, files_exist.
  rewrite (bool_decide_eq_true_2 _ Hraw). cbn [mret M_ret].
  rewrite bool_decide_eq_false_2 by (rewrite Hcache; by intros [? ?]).
  by destruct (process root fs) as [[[]|e] fs'].
Qed.

(** Without the raw file the constructor first copies [data.csv]. *)
Lemma init_download root (fs : gmap string file) f :
  fs !! raw_paths0 root = None →
  fs !! "data.csv" = Some f →
  __init__ root fs = __init__ root (<[raw_paths0 root := f]> fs).
Proof.
  intros Hraw Hcsv.
  unfold MyDataset.__init__, _download, mbind, M_bind, files_exist.
  rewrite (bool_decide_eq_false_2 (is_Some (fs !! raw_paths0 root)))
    by (rewrite Hraw; by intros [? ?]).
  rewrite (bool_decide_eq_true_2 (is_Some (<[raw_paths0 root := f]> fs !! raw_paths0 root)))
    by (rewrite lookup_insert_eq; by eexists).
  unfold download, shutil_copy. rewrite Hcsv. done.
Qed.

Lemma init_no_table root (fs : gmap string file) :
  fs !! raw_paths0 root = None →
  fs !! "data.csv" = None →
  __init__ root fs = (Raise (FileNotFoundError "data.csv"), fs).
Proof.
  intros Hraw Hcsv.
  unfold MyDataset.__init__, _download, mbind, M_bind, files_exist.
  rewrite bool_decide_eq_false_2 by (rewrite Hraw; by intros [? ?]).
  unfold download, shutil_copy. by rewrite Hcsv.
Qed.




Lemma torch_load_state path (fs fs' : gmap string file) r :
  torch_load path fs = (r, fs') → fs' = fs.
Proof.
  unfold torch_load. destruct (fs !! path) as [[df|c]|]; by intros [= _ <-].
Qed.

Lemma torch_load_Ok path (fs fs' : gmap string file) ds :
  torch_load path fs = (Ok ds, fs') → fs !! path = Some (PtFile ds).
Proof.
  unfold torch_load. destruct (fs !! path) as [[df|c]|]; [discriminate| |discriminate].
  by intros [= -> _].
Qed.


(** A constructor that returned leaves both files behind, the processed
    one holding what it returned. *)
Lemma init_Ok_state root (fs fs' : gmap string file) ds :
  __init__ root fs = (Ok ds, fs') →
  is_Some (fs' !! raw_paths0 root)
  ∧ fs' !! processed_paths0 root = Some (PtFile ds).
Proof.
  assert (∀ fs0 : gmap string file,
            is_Some (fs0 !! raw_paths0 root) →
            __init__ root fs0 = (Ok ds, fs') →
            is_Some (fs' !! raw_paths0 root)
            ∧ fs' !! processed_paths0 root = Some (PtFile ds)) as Htail.
  { intros fs0 Hraw Hrun.
    destruct (fs0 !! processed_paths0 root) as [f|] eqn:Hcache.
    - rewrite init_load in Hrun by (by rewrite ?Hcache).
      pose proof (torch_load_state _ _ _ _ Hrun) as ->.
      split; [done|]. by apply torch_load_Ok in Hrun.
    - rewrite init_process in Hrun by done.
      destruct (process root fs0) as [[[]|e] fs1] eqn:Hproc; [|discriminate].
      apply process_return in Hproc as (df & ds' & _ & _ & ->).
      pose proof (torch_load_state _ _ _ _ Hrun) as ->.
      split; [|by apply torch_load_Ok in Hrun].
      by rewrite lookup_insert_ne by (intros Heq; by apply (raw_processed_paths root)). }
  intros Hrun. destruct (fs !! raw_paths0 root) as [f|] eqn:Hraw.
  - apply (Htail fs); by rewrite ?Hraw.
  - destruct (fs !! "data.csv") as [f|] eqn:Hcsv.
    + rewrite (init_download root fs f Hraw Hcsv) in Hrun.
      apply (Htail _ ltac:(rewrite lookup_insert_eq; by eexists) Hrun).
    + by rewrite init_no_table in Hrun.
Qed.

End constructor.
End RunFacts.

(** ** More on the graph of a molecule *)

Module GraphFacts.
Import Torch Python Chem MyDataset NodeFeatures Sorting Edges WellFormed Adjacency Graph Graphs.

Lemma edge_pairs_cols es : edge_pairs (cols es) = (λ e, (e.1.1, e.1.2)) <$> es.
Proof.
  unfold edge_pairs, cols. simpl.
  by rewrite zip_with_fmap_l, zip_with_fmap_r, zip_with_diag.
Qed.

Lemma edge_pairs_t (pairs : list (list Z)) :
  edge_pairs (t pairs) = (λ p, (p !!! 0%nat, p !!! 1%nat)) <$> pairs.
Proof.
  unfold edge_pairs, t. simpl.
  by rewrite zip_with_fmap_l, zip_with_fmap_r, zip_with_diag.
Qed.

(** The pairs of the edge-attribute mode are those of the bonds, both
    ways. *)
Lemma elem_of_pairs_with_attr uninit mol smiles label a b :
  (a, b) ∈ edge_pairs (Data.edge_index (graph_of_mol uninit true mol smiles label))
  ↔ ∃ bond, bond ∈ GetBonds mol
      ∧ ((a = Z.of_nat (Bond.GetBeginAtomIdx bond) ∧ b = Z.of_nat (Bond.GetEndAtomIdx bond))
         ∨ (a = Z.of_nat (Bond.GetEndAtomIdx bond) ∧ b = Z.of_nat (Bond.GetBeginAtomIdx bond))).
Proof.
  rewrite graph_of_mol_with_attr. cbv zeta. cbn [Data.edge_index].
  rewrite edge_pairs_cols, sorted_triples_Permutation, list_elem_of_fmap. split.
  - intros ([[a' b'] f] & [= -> ->] & He). simpl.
    apply elem_of_triples in He as (bond & Hbond & [[= -> -> _]|[= -> -> _]]);
      exists bond; (split; [done|]); [by left|by right].
  - intros (bond & Hbond & Hab).
    destruct Hab as [[-> ->]|[-> ->]]; eexists (_, _, bond_attr bond);
      (split; [done|]); apply elem_of_triples; exists bond; (split; [done|]);
      [by left|by right].
Qed.

(** The pairs of the other mode are the bonded pairs of atoms. *)
Lemma elem_of_pairs_from_adjacency uninit mol smiles label a b :
  (a, b) ∈ edge_pairs (Data.edge_index (graph_of_mol uninit false mol smiles label))
  ↔ ∃ i j, (i < GetNumAtoms mol)%nat ∧ (j < GetNumAtoms mol)%nat
           ∧ bonded mol i j = true ∧ a = Z.of_nat i ∧ b = Z.of_nat j.
Proof.
  unfold graph_of_mol, edges_from_adjacency, dense_to_sparse. cbn [Data.edge_index fst].
  rewrite edge_pairs_t, list_elem_of_fmap. split.
  - intros (p & [= -> ->] & Hp).
    apply elem_of_nonzero_adjacency in Hp as (i & j & Hi & Hj & Hb & ->).
    by exists i, j.
  - intros (i & j & Hi & Hj & Hb & -> & ->).
    exists [Z.of_nat i; Z.of_nat j]. split; [done|].
    apply elem_of_nonzero_adjacency. by exists i, j.
Qed.

Lemma bonded_sym mol i j : bonded mol i j = true → bonded mol j i = true.
Proof.
  rewrite !bonded_joins. intros (bond & Hbond & Hj). exists bond. split; [done|].
  destruct Hj; [by right|by left].
Qed.

(** The entries of the edge-attribute mode, with their features. *)
Lemma entries_with_attr uninit mol smiles label :
  let data := graph_of_mol uninit true mol smiles label in
  ∃ ea, Data.edge_attr data = Some ea
        ∧ entries (Data.edge_index data) ea ≡ₚ GetBonds mol ≫= bond_entries.
Proof.
  rewrite graph_of_mol_with_attr. cbv zeta. cbn [Data.edge_attr Data.edge_index].
  eexists. split; [done|].
  by rewrite entries_cols, sorted_triples_Permutation, triples_entries.
Qed.

Lemma NoDup_fmap_inj_on {A B} (f : A → B) (l : list A) a b :
  NoDup (f <$> l) → a ∈ l → b ∈ l → f a = f b → a = b.
Proof.
  intros Hnd [i Hi]%list_elem_of_lookup [j Hj]%list_elem_of_lookup Heq.
  assert (i = j) as <-; [|congruence].
  eapply NoDup_lookup; [exact Hnd|rewrite list_lookup_fmap, Hi|rewrite list_lookup_fmap, Hj];
    simpl; [done|by rewrite Heq].
Qed.

#[local] Instance wkey_le_trans n : Transitive (λ a b : Z * Z * Z, wkey n a ≤ wkey n b).
Proof. intros a b c. lia. Qed.

(** Two lists of edges with the same members and pairwise different keys
    are sorted into the same list. *)
Lemma sorted_triples_unique n (es es' : list (Z * Z * Z)) :
  NoDup (wkey n <$> es) → es' ≡ₚ es →
  gather es' (argsort (wkey n <$> es')) = gather es (argsort (wkey n <$> es)).
Proof.
  intros Hnd Hperm.
  assert (∀ l : list (Z * Z * Z), gather l (argsort (wkey n <$> l)) ≡ₚ l) as Hg.
  { intros l. apply gather_Permutation.
    rewrite <- (length_fmap (wkey n)). apply argsort_Permutation. }
  apply (StronglySorted_unique_strong (λ a b, wkey n a ≤ wkey n b)).
  - intros a b Ha Hb Hab Hba. rewrite Hg in Ha, Hb. rewrite Hperm in Ha.
    apply (NoDup_fmap_inj_on (wkey n) es); [done..|lia].
  - apply (StronglySorted_fmap_inv Z.le (wkey n)).
    apply Sorted_StronglySorted; [apply _|]. apply wkey_gather_sorted.
  - apply (StronglySorted_fmap_inv Z.le (wkey n)).
    apply Sorted_StronglySorted; [apply _|]. apply wkey_gather_sorted.
  - by rewrite !Hg.
Qed.

Lemma int_of_Q_eq (d : Q) (k : Z) :
  1 ≤ k → int_of_Q d = k ↔ (inject_Z k <= d)%Q ∧ (d < inject_Z (k + 1))%Q.
Proof.
  intros Hk. unfold int_of_Q, Qle, Qlt. destruct d as [num den]. cbn [Qnum Qden inject_Z].
  rewrite !Z.mul_1_r.
  destruct (Z_lt_ge_dec num 0) as [Hneg|Hpos].
  - split; [|lia]. intros Hq.
    pose proof (Z.quot_opp_l num (Z.pos den) ltac:(lia)) as Hopp.
    pose proof (Z.quot_pos (- num) (Z.pos den) ltac:(lia) ltac:(lia)). lia.
  - rewrite Z.quot_div_nonneg by lia.
    pose proof (Z.mul_div_le num (Z.pos den) ltac:(lia)).
    pose proof (Z.mul_succ_div_gt num (Z.pos den) ltac:(lia)).
    split.
    + intros <-. lia.
    + intros [Hlo Hhi]. symmetry.
      apply (Z.div_unique num (Z.pos den) k (num - Z.pos den * k)); lia.
Qed.

End GraphFacts.

(** ** Batches and the split *)

Module LoaderFacts.
Import Python FloatFacts Loader.

Lemma num_batches_bounds (n batch_size : nat) :
  (0 < batch_size)%nat →
  (n ≤ num_batches n batch_size * batch_size)%nat
  ∧ (0 < n → (num_batches n batch_size - 1) * batch_size < n)%nat
  ∧ (n = 0 → num_batches n batch_size = 0)%nat.
Proof.
  intros Hbs. unfold num_batches.
  pose proof (Nat.div_mod_eq (n + batch_size - 1) batch_size) as Hdiv.
  pose proof (Nat.mod_upper_bound (n + batch_size - 1) batch_size ltac:(lia)) as Hmod.
  revert Hdiv Hmod.
  generalize ((n + batch_size - 1) / batch_size)%nat.
  generalize ((n + batch_size - 1) mod batch_size)%nat.
  intros r q Hdiv Hmod. repeat split.
  - nia.
  - intros Hn. destruct q as [|q]; [nia|]. nia.
  - intros ->. destruct q as [|q]; [done|]. nia.
Qed.

Lemma join_batches {A} (l : list A) (batch_size m : nat) :
  mjoin ((λ i, take batch_size (drop (i * batch_size) l)) <$> seq 0 m)
  = take (m * batch_size) l.
Proof.
  induction m as [|m IH]; [done|].
  rewrite seq_S, fmap_app, join_app, IH. cbn [fmap list_fmap mjoin list_join Nat.add].
  rewrite app_nil_r, take_take_drop. f_equal. lia.
Qed.

Lemma DataLoader_join {A} (dataset : list A) (batch_size : nat) :
  (0 < batch_size)%nat → mjoin (DataLoader dataset batch_size) = dataset.
Proof.
  intros Hbs. unfold DataLoader. rewrite join_batches. apply take_ge.
  by apply num_batches_bounds.
Qed.

Lemma length_DataLoader {A} (dataset : list A) (batch_size : nat) :
  length (DataLoader dataset batch_size) = num_batches (length dataset) batch_size.
Proof. unfold DataLoader. by rewrite length_fmap, length_seq. Qed.

Lemma DataLoader_lookup {A} (dataset : list A) (batch_size i : nat) batch :
  DataLoader dataset batch_size !! i = Some batch ↔
  (i < num_batches (length dataset) batch_size)%nat
  ∧ batch = take batch_size (drop (i * batch_size) dataset).
Proof.
  unfold DataLoader. rewrite list_lookup_fmap. split.
  - intros Hl. destruct (seq _ _ !! i) as [j|] eqn:Hj; [|done].
    apply lookup_seq in Hj as [-> Hi]. simpl in Hl. by injection Hl as <-.
  - intros [Hi ->]. by rewrite (lookup_seq_lt _ _ _ Hi).
Qed.

Lemma length_batch {A} (dataset : list A) (batch_size i : nat) batch :
  (0 < batch_size)%nat →
  DataLoader dataset batch_size !! i = Some batch →
  (0 < length batch ≤ batch_size)%nat
  ∧ (S i < num_batches (length dataset) batch_size → length batch = batch_size)%nat.
Proof.
  intros Hbs [Hi ->]%DataLoader_lookup.
  rewrite length_take, length_drop.
  destruct (num_batches_bounds (length dataset) batch_size Hbs) as (_ & Hlast & Hzero).
  destruct (decide (length dataset = 0%nat)) as [Hn|Hn]; [rewrite (Hzero Hn) in Hi; lia|].
  specialize (Hlast ltac:(lia)). split; [nia|]. intros HS. nia.
Qed.

Lemma slice_index_of_nat {A} (l : list A) (k : nat) : slice_index l (Z.of_nat k) = k.
Proof. unfold slice_index. rewrite decide_False by lia. apply Nat2Z.id. Qed.

(** The two slices, for a list a machine can hold. *)
Lemma train_test_split_value {A} (dataset : list A) :
  Z.of_nat (length dataset) < 2 ^ 50 →
  train_test_split dataset
  = Ok (take (4 * length dataset / 5) dataset, drop (4 * length dataset / 5) dataset).
Proof.
  intros Hn. unfold train_test_split.
  rewrite split_point_value by lia.
  replace (4 * Z.of_nat (length dataset) / 5) with (Z.of_nat (4 * length dataset / 5))
    by (by rewrite Nat2Z.inj_div, Nat2Z.inj_mul).
  cbn [mbind result_bind]. unfold slice_to, slice_from.
  by rewrite slice_index_of_nat.
Qed.

End LoaderFacts.

(** ** Further properties of the notebook's code *)

Module Extras.
Import Torch Chem MyDataset NodeFeatures Sorting Edges WellFormed Adjacency Graph.
Import Process RunFacts Python FloatFacts Loader LoaderFacts Graphs GraphFacts Examples Examples2.

(** *** The constructor *)







(** X4. A table without rows does not convert: [collate] reads the first
    of the records, so [process] and the constructor raise an index error
    and write nothing. *)
Theorem empty_table_raises (MolFromSmiles : string → option Mol)
    (uninit : nat → nat → Z) (create_edge_attr : bool) (root : string)
    (fs : gmap string file) :
  fs !! raw_paths0 root = Some (CsvFile []) →
  fs !! processed_paths0 root = None →
  process MolFromSmiles uninit create_edge_attr root fs = (Raise IndexError, fs)
  ∧ __init__ MolFromSmiles uninit create_edge_attr root fs = (Raise IndexError, fs).
Proof.
  intros Hraw Hcache.
  assert (process MolFromSmiles uninit create_edge_attr root fs
          = (Raise IndexError, fs)) as Hrun.
  { unfold process, mbind, M_bind, read_csv, lift. by rewrite Hraw. }
  split; [done|].
  rewrite init_process by (by rewrite ?Hraw). by rewrite Hrun.
Qed.

Lemma empty_table_raises_witness :
  process parse zeros true "tox21" empty_raw = (Raise IndexError, empty_raw)
  ∧ __init__ parse zeros true "tox21" empty_raw = (Raise IndexError, empty_raw).
Proof.
  apply (empty_table_raises parse zeros true "tox21" empty_raw); compute_done.
Defined.

(** X5. Without a table, neither in the raw directory nor as [data.csv],
    the constructor raises in [download], whether a processed file exists
    or not, and changes no file. *)
Theorem missing_table_raises (MolFromSmiles : string → option Mol)
    (uninit : nat → nat → Z) (create_edge_attr : bool) (root : string)
    (fs : gmap string file) :
  fs !! raw_paths0 root = None →
  fs !! "data.csv" = None →
  __init__ MolFromSmiles uninit create_edge_attr root fs
  = (Raise (FileNotFoundError "data.csv"), fs).
Proof. apply init_no_table. Qed.

Lemma missing_table_raises_witness :
  __init__ parse zeros true "tox21" cache_only
  = (Raise (FileNotFoundError "data.csv"), cache_only).
Proof.
  apply (missing_table_raises parse zeros true "tox21" cache_only); compute_done.
Defined.

(** X6. Once a construction has returned, every later construction on
    the same root returns the same collection, whatever parser and mode
    it is given, and changes no file: a change of mode or of [process]
    shows only after the processed file has been deleted. *)
Theorem later_constructions_reuse_cache (MolFromSmiles : string → option Mol)
    (uninit : nat → nat → Z) (create_edge_attr : bool) (root : string)
    (fs fs' : gmap string file) (ds : list Data) :
  __init__ MolFromSmiles uninit create_edge_attr root fs = (Ok ds, fs') →
  ∀ MolFromSmiles' uninit' create_edge_attr',
    __init__ MolFromSmiles' uninit' create_edge_attr' root fs' = (Ok ds, fs').
Proof.
  intros Hrun ? ? ?.
  apply init_Ok_state in Hrun as [Hraw Hcache]. by apply init_cached.
Qed.

Lemma later_constructions_reuse_cache_witness :
  let run := __init__ parse zeros false "tox21" fresh in
  run.1 = Ok [ graph_of_mol zeros false ethanol "CCO" 1;
               graph_of_mol zeros false water "O" 0 ]
  ∧ ∀ MolFromSmiles' uninit' create_edge_attr',
      __init__ MolFromSmiles' uninit' create_edge_attr' "tox21" run.2
      = (Ok [ graph_of_mol zeros false ethanol "CCO" 1;
              graph_of_mol zeros false water "O" 0 ], run.2).
Proof.
  intros run. split; [vm_compute; reflexivity|].
  apply (later_constructions_reuse_cache parse zeros false "tox21" fresh).
  vm_compute. reflexivity.
Defined.




(** X8. Whatever the molecule and the mode, the edge index is symmetric:
    it lists the pair (a, b) exactly when it lists (b, a); with edge
    attributes, the two directions carry the same feature. *)
Theorem edges_symmetric (uninit : nat → nat → Z) (create_edge_attr : bool)
    (mol : Mol) (smiles : string) (label : Z) :
  let data := graph_of_mol uninit create_edge_attr mol smiles label in
  (∀ a b, (a, b) ∈ edge_pairs (Data.edge_index data)
          ↔ (b, a) ∈ edge_pairs (Data.edge_index data))
  ∧ (∀ edge_attr, Data.edge_attr data = Some edge_attr →
     ∀ a b f, (a, b, f) ∈ entries (Data.edge_index data) edge_attr
              ↔ (b, a, f) ∈ entries (Data.edge_index data) edge_attr).
Proof.
  cbv zeta. split.
  - assert (∀ a b,
      (a, b) ∈ edge_pairs (Data.edge_index
                 (graph_of_mol uninit create_edge_attr mol smiles label))
      → (b, a) ∈ edge_pairs (Data.edge_index
                 (graph_of_mol uninit create_edge_attr mol smiles label))) as Hsym;
      [|by split; apply Hsym].
    intros a b. destruct create_edge_attr.
    + rewrite !elem_of_pairs_with_attr. intros (bond & Hbond & Hab).
      exists bond. split; [done|]. destruct Hab as [[-> ->]|[-> ->]]; [by right|by left].
    + rewrite !elem_of_pairs_from_adjacency. intros (i & j & Hi & Hj & Hb & -> & ->).
      exists j, i. by repeat split; try apply bonded_sym.
  - intros edge_attr Hattr.
    assert (create_edge_attr = true) as ->.
    { destruct create_edge_attr; [done|].
      unfold graph_of_mol in Hattr. by destruct (edges_from_adjacency mol). }
    destruct (entries_with_attr uninit mol smiles label) as (ea & Hea & Hperm).
    rewrite Hattr in Hea. injection Hea as <-.
    assert (∀ a b f, (a, b, f) ∈ GetBonds mol ≫= bond_entries
                     → (b, a, f) ∈ GetBonds mol ≫= bond_entries) as Hsym.
    { intros a b f. rewrite !list_elem_of_bind. intros (bond & He & Hbond).
      exists bond. split; [|done]. unfold bond_entries in *.
      rewrite !elem_of_cons, elem_of_nil in *.
      destruct He as [[= -> -> ->]|[[= -> -> ->]|[]]]; auto. }
    intros a b f. rewrite !Hperm. by split; apply Hsym.
Qed.

Lemma edges_symmetric_witness :
  (2, 1) ∈ edge_pairs (Data.edge_index (graph_of_mol zeros true ethanol "CCO" 0))
  ∧ (2, 1, [1]) ∈ entries (Data.edge_index (graph_of_mol zeros true ethanol "CCO" 0))
                    [[1]; [1]; [1]; [1]].
Proof.
  split.
  - apply (proj1 (edges_symmetric zeros true ethanol "CCO" 0)). compute_done.
  - apply (proj2 (edges_symmetric zeros true ethanol "CCO" 0) _ eq_refl). compute_done.
Defined.

(** X9. For a well-formed molecule, in either mode, every index of the edge
    index addresses a row of the node-feature table, and no edge joins an
    atom to itself. *)
Theorem edges_address_nodes (uninit : nat → nat → Z) (create_edge_attr : bool)
    (mol : Mol) (smiles : string) (label : Z) :
  wf_mol mol →
  let data := graph_of_mol uninit create_edge_attr mol smiles label in
  Forall (λ p : Z * Z,
    0 ≤ p.1 < Z.of_nat (size0 (Data.x data))
    ∧ 0 ≤ p.2 < Z.of_nat (size0 (Data.x data))
    ∧ p.1 ≠ p.2) (edge_pairs (Data.edge_index data)).
Proof.
  intros Hwf. cbv zeta.
  destruct (graph_x_shape uninit create_edge_attr mol smiles label) as [Hrows _].
  unfold size0. rewrite Hrows.
  pose proof Hwf as (Hbonds & _ & _). rewrite Forall_forall in Hbonds.
  apply Forall_forall. intros [a b]. simpl. destruct create_edge_attr.
  - rewrite elem_of_pairs_with_attr. intros (bond & Hbond & Hab).
    destruct (Hbonds _ Hbond) as (H1 & H2 & H3).
    destruct Hab as [[-> ->]|[-> ->]]; lia.
  - rewrite elem_of_pairs_from_adjacency. intros (i & j & Hi & Hj & Hb & -> & ->).
    apply bonded_joins in Hb as (bond & Hbond & Hij).
    destruct (Hbonds _ Hbond) as (H1 & H2 & H3).
    destruct Hij as [[? ?]|[? ?]]; lia.
Qed.

Lemma edges_address_nodes_witness :
  Forall (λ p : Z * Z,
    0 ≤ p.1 < Z.of_nat (size0 (Data.x (graph_of_mol zeros false ethanol "CCO" 0)))
    ∧ 0 ≤ p.2 < Z.of_nat (size0 (Data.x (graph_of_mol zeros false ethanol "CCO" 0)))
    ∧ p.1 ≠ p.2)
    (edge_pairs (Data.edge_index (graph_of_mol zeros false ethanol "CCO" 0))).
Proof.
  apply (edges_address_nodes zeros false ethanol "CCO" 0). compute_done.
Defined.

(** X10. With edge attributes the record is canonical: for a well-formed
    molecule it depends neither on the order in which the parser lists
    the bonds, nor on the direction in which it reports a bond, nor on the
    uninitialised contents of the fresh node-feature table. *)
Theorem graph_independent_of_bond_order (uninit uninit' : nat → nat → Z)
    (mol mol' : Mol) (smiles : string) (label : Z) :
  wf_mol mol →
  GetAtoms mol' = GetAtoms mol →
  triples mol' ≡ₚ triples mol →
  graph_of_mol uninit' true mol' smiles label
  = graph_of_mol uninit true mol smiles label.
Proof.
  intros Hwf Hatoms Hperm. rewrite !graph_of_mol_with_attr. cbv zeta.
  assert (GetNumAtoms mol' = GetNumAtoms mol) as Hn.
  { unfold GetNumAtoms. by rewrite Hatoms. }
  rewrite Hn, !node_features_rows, Hatoms.
  by rewrite (sorted_triples_unique (GetNumAtoms mol) (triples mol) (triples mol'))
    by (by apply NoDup_keys || done).
Qed.

Lemma graph_independent_of_bond_order_witness :
  graph_of_mol (λ _ _, 7) true ethanol_reordered "CCO" 0
  = graph_of_mol zeros true ethanol "CCO" 0.
Proof.
  apply (graph_independent_of_bond_order zeros (λ _ _, 7) ethanol ethanol_reordered).
  - compute_done.
  - reflexivity.
  - compute_done.
Defined.

(** X11. The edge feature of a bond, exactly: for a code [k] of at least
    1, a bond gets [k] when it is aromatic and [k] is 4, or when it is not
    aromatic and its bond type as a double lies in [k, k + 1) (the cast to
    an integer drops the fraction).  So a bond that is not aromatic but of
    type 4 shares the code of the aromatic bonds. *)
Theorem bond_attr_iff (bond : Bond) (k : Z) :
  1 ≤ k →
  bond_attr bond = k ↔
  (Bond.GetIsAromatic bond = true ∧ k = 4)
  ∨ (Bond.GetIsAromatic bond = false
     ∧ (inject_Z k <= Bond.GetBondTypeAsDouble bond)%Q
     ∧ (Bond.GetBondTypeAsDouble bond < inject_Z (k + 1))%Q).
Proof.
  intros Hk. unfold bond_attr. destruct (Bond.GetIsAromatic bond).
  - split; [intros <-; by left|]. by intros [[_ ->]|[[=] _]].
  - rewrite (int_of_Q_eq _ k Hk). split; [by right|]. by intros [[[=] _]|[_ ?]].
Qed.

Lemma bond_attr_iff_witness :
  bond_attr (quadruple 0 1) = 4 ∧ bond_attr (aromatic 0 1) = 4.
Proof.
  split.
  - apply (bond_attr_iff (quadruple 0 1) 4); [lia|]. right.
    split; [reflexivity|]. unfold Qle, Qlt. simpl. lia.
  - apply (bond_attr_iff (aromatic 0 1) 4); [lia|]. left. compute_done.
Defined.

(** X12. For a well-formed molecule, in either mode, the edge index is the
    empty tensor of shape [2, 0] exactly when the molecule has no bonds;
    the edge features are then the empty tensor of shape [0, 1] with edge
    attributes, and absent without. *)
Theorem no_edges_iff_no_bonds (uninit : nat → nat → Z) (create_edge_attr : bool)
    (mol : Mol) (smiles : string) (label : Z) :
  wf_mol mol →
  let data := graph_of_mol uninit create_edge_attr mol smiles label in
  (Data.edge_index data = [[]; []] ↔ GetBonds mol = [])
  ∧ (GetBonds mol = [] →
     Data.edge_attr data = if create_edge_attr then Some [] else None).
Proof.
  intros Hwf. cbv zeta. split; [split|].
  - intros Hempty. destruct (GetBonds mol) as [|bond bonds] eqn:Hbonds; [done|].
    exfalso.
    assert ((Z.of_nat (Bond.GetBeginAtomIdx bond), Z.of_nat (Bond.GetEndAtomIdx bond))
            ∈ edge_pairs (Data.edge_index
                (graph_of_mol uninit create_edge_attr mol smiles label))) as Hin.
    { assert (bond ∈ GetBonds mol) as Hbond by (rewrite Hbonds; left).
      destruct create_edge_attr.
      - apply elem_of_pairs_with_attr. exists bond. split; [done|]. by left.
      - apply elem_of_pairs_from_adjacency.
        destruct Hwf as (Hrange & _ & _). rewrite Forall_forall in Hrange.
        destruct (Hrange _ Hbond) as (H1 & H2 & _).
        exists (Bond.GetBeginAtomIdx bond), (Bond.GetEndAtomIdx bond).
        repeat split; [done..|]. apply bonded_joins. exists bond. split; [done|].
        by left. }
    rewrite Hempty in Hin. by apply elem_of_nil in Hin.
  - apply graph_no_bonds.
  - intros Hbonds. destruct create_edge_attr.
    + rewrite graph_of_mol_with_attr. unfold triples. by rewrite Hbonds.
    + unfold graph_of_mol. by destruct (edges_from_adjacency mol).
Qed.

Lemma no_edges_iff_no_bonds_witness :
  Data.edge_index (graph_of_mol zeros true water "O" 1) = [[]; []]
  ∧ Data.edge_attr (graph_of_mol zeros true water "O" 1) = Some []
  ∧ Data.edge_index (graph_of_mol zeros false ethanol "CCO" 0) ≠ [[]; []].
Proof.
  split; [|split].
  - apply (no_edges_iff_no_bonds zeros true water "O" 1); [compute_done|reflexivity].
  - apply (proj2 (no_edges_iff_no_bonds zeros true water "O" 1 ltac:(compute_done))).
    reflexivity.
  - intros Hempty.
    apply (no_edges_iff_no_bonds zeros false ethanol "CCO" 0) in Hempty;
      [discriminate|compute_done].
Defined.

(** *** The split and the loaders *)

(** X13. The sizes of the two sets, for a dataset of [n] records ([n]
    below 2^50): the test set holds the fifth of the records rounded up,
    [(n + 4) / 5], so it is empty only for the empty dataset, while the
    training set is empty already for a dataset of one record; and the
    test set is never the larger one once there are two records. *)
Theorem split_sizes {A : Type} (dataset : list A) :
  Z.of_nat (length dataset) < 2 ^ 50 →
  ∃ train_set test_set,
    train_test_split dataset = Ok (train_set, test_set)
    ∧ length test_set = ((length dataset + 4) / 5)%nat
    ∧ (test_set = [] ↔ dataset = [])
    ∧ (train_set = [] ↔ (length dataset ≤ 1)%nat)
    ∧ ((2 ≤ length dataset)%nat → (length test_set ≤ length train_set)%nat).
Proof.
  intros Hn. rewrite (train_test_split_value dataset Hn).
  eexists _, _. split; [done|].
  rewrite <- !length_zero_iff_nil, length_take, length_drop.
  pose proof (Nat.div_mod_eq (4 * length dataset) 5) as Hdiv.
  pose proof (Nat.mod_upper_bound (4 * length dataset) 5 ltac:(lia)) as Hmod.
  pose proof (Nat.div_mod_eq (length dataset + 4) 5) as Hdiv'.
  pose proof (Nat.mod_upper_bound (length dataset + 4) 5 ltac:(lia)) as Hmod'.
  repeat split; lia.
Qed.

Lemma split_sizes_witness :
  ∃ train_set test_set : list nat,
    train_test_split [7%nat] = Ok (train_set, test_set)
    ∧ length test_set = ((length [7%nat] + 4) / 5)%nat
    ∧ (test_set = [] ↔ [7%nat] = [])
    ∧ (train_set = [] ↔ (length [7%nat] ≤ 1)%nat)
    ∧ ((2 ≤ length [7%nat])%nat → (length test_set ≤ length train_set)%nat).
Proof.
  apply (split_sizes [7%nat]). compute_done.
Defined.

(** X14. Whatever the length of the dataset and however the product in
    doubles is rounded: when the split returns, the training set and the
    test set are a prefix and the matching suffix of the dataset; no
    record is lost, duplicated or reordered. *)
Theorem split_never_loses_records {A : Type} (dataset train_set test_set : list A) :
  train_test_split dataset = Ok (train_set, test_set) →
  train_set ++ test_set = dataset
  ∧ train_set `prefix_of` dataset
  ∧ test_set `suffix_of` dataset.
Proof.
  unfold train_test_split.
  destruct (split_point (Z.of_nat (length dataset))) as [k|e]; [|done].
  cbn [mbind result_bind]. intros [= <- <-]. unfold slice_to, slice_from.
  split; [apply take_drop|]. split.
  - apply prefix_take.
  - apply suffix_drop.
Qed.

Lemma split_never_loses_records_witness :
  [1; 2; 3; 4]%nat ++ [5%nat] = [1; 2; 3; 4; 5]%nat
  ∧ [1; 2; 3; 4]%nat `prefix_of` [1; 2; 3; 4; 5]%nat
  ∧ [5%nat] `suffix_of` [1; 2; 3; 4; 5]%nat.
Proof.
  apply (split_never_loses_records [1; 2; 3; 4; 5]%nat). vm_compute. reflexivity.
Defined.

(** X15. A loader without shuffling cuts its dataset into consecutive
    batches: for a positive batch size the batches put together are the
    dataset, there are [ceil(n / batch_size)] of them, none is empty or
    larger than the batch size, and all but the last are full. *)
Theorem DataLoader_batches {A : Type} (dataset : list A) (batch_size : nat) :
  (0 < batch_size)%nat →
  mjoin (DataLoader dataset batch_size) = dataset
  ∧ length (DataLoader dataset batch_size) = num_batches (length dataset) batch_size
  ∧ (length dataset ≤ length (DataLoader dataset batch_size) * batch_size)%nat
  ∧ (length (DataLoader dataset batch_size) * batch_size < length dataset + batch_size)%nat
  ∧ (∀ i batch, DataLoader dataset batch_size !! i = Some batch →
       (0 < length batch ≤ batch_size)%nat
       ∧ (S i < length (DataLoader dataset batch_size) → length batch = batch_size)%nat).
Proof.
  intros Hbs. rewrite length_DataLoader.
  destruct (num_batches_bounds (length dataset) batch_size Hbs) as (Hup & Hlast & Hzero).
  split; [by apply DataLoader_join|]. split; [done|]. split; [done|]. split.
  - destruct (decide (length dataset = 0%nat)) as [Hn|Hn]; [rewrite (Hzero Hn); lia|].
    specialize (Hlast ltac:(lia)). nia.
  - intros i batch Hi. by apply (length_batch dataset).
Qed.

Lemma DataLoader_batches_witness :
  mjoin (DataLoader [1; 2; 3; 4; 5; 6; 7]%nat 3) = [1; 2; 3; 4; 5; 6; 7]%nat
  ∧ length (DataLoader [1; 2; 3; 4; 5; 6; 7]%nat 3) = 3%nat.
Proof.
  destruct (DataLoader_batches [1; 2; 3; 4; 5; 6; 7]%nat 3 ltac:(lia))
    as (Hjoin & Hlen & _).
  split; [exact Hjoin|exact Hlen].
Defined.

(** X16. The two loaders of the notebook, for a dataset of [n] records ([n]
    below 2^50): every record of the dataset is in exactly one batch of
    exactly one loader, in the order of the dataset, the training batches
    first; no batch is empty or holds more than 32 records; and the numbers
    of batches an epoch runs through are those of [4 n / 5] and of the
    remaining records. *)
Theorem loaders_cover_dataset {A : Type} (dataset : list A) :
  Z.of_nat (length dataset) < 2 ^ 50 →
  ∃ train_loader test_loader,
    loaders dataset = Ok (train_loader, test_loader)
    ∧ mjoin train_loader ++ mjoin test_loader = dataset
    ∧ Forall (λ batch, (0 < length batch ≤ 32)%nat) (train_loader ++ test_loader)
    ∧ length train_loader = num_batches (4 * length dataset / 5) 32
    ∧ length test_loader = num_batches (length dataset - 4 * length dataset / 5) 32.
Proof.
  intros Hn. unfold loaders. rewrite (train_test_split_value dataset Hn).
  cbn [mbind result_bind]. eexists _, _. split; [done|].
  rewrite !DataLoader_join by lia. rewrite !length_DataLoader.
  split; [apply take_drop|]. split; [|split].
  - apply Forall_app. split; apply Forall_lookup; intros i batch Hi;
      (apply length_batch in Hi as [? _]; [done|lia]).
  - f_equal. rewrite length_take.
    pose proof (Nat.div_mod_eq (4 * length dataset) 5). lia.
  - by rewrite length_drop.
Qed.

Lemma loaders_cover_dataset_witness :
  ∃ train_loader test_loader,
    loaders (seq 0 50) = Ok (train_loader, test_loader)
    ∧ mjoin train_loader ++ mjoin test_loader = seq 0 50
    ∧ Forall (λ batch, (0 < length batch ≤ 32)%nat) (train_loader ++ test_loader)
    ∧ length train_loader = num_batches (4 * length (seq 0 50) / 5) 32
    ∧ length test_loader = num_batches (length (seq 0 50) - 4 * length (seq 0 50) / 5) 32.
Proof.
  apply (loaders_cover_dataset (seq 0 50)). compute_done.
Defined.
End Extras.
